(** * RTSP-CLIENT: the named element-graph builder of [src/main.cpp]

    The class [GStreamPipeline] keeps a [std::map] from symbolic names to
    pairs (element pointer, caps pointer) and drives GStreamer through its C
    interface.  GStreamer itself is not part of the repository, so the
    development is split in three layers:

    - [Oracle]: the engine's decisions (is a plugin known, does a bin accept
      a child, does a caps string parse, does a link negotiate, is a state
      change accepted).  The general theorems hold for every oracle; the
      statements at concrete inputs use [demo_engine].
    - the engine's book-keeping ([Gst]): which objects exist, who is their
      parent, how many references a caps has, which pads are linked.  It is
      the least the calls made by [main.cpp] imply.
    - the methods of [GStreamPipeline] and the callback [onPadAdded],
      transcribed from the source in a state monad over [World].

    A [std::string] is a [string] that may hold any character; where the
    source hands [s.c_str()] to a C function the model hands over [c_str s],
    what the function reads.  Text written to [std::cout] / [g_print] is not
    modelled, and neither is [runMainLoop], which blocks in the engine's
    dispatch loop. *)

From stdpp Require Import base numbers gmap strings list.

Local Open Scope N_scope.
Local Open Scope string_scope.

(** ** Native pointers and plain data *)

(** A native address; [NULL] is address zero. *)
Abbreviation ptr := N (only parsing).

Definition NULL : ptr := 0.

(** [GstState] of gst/gstelement.h. *)
Inductive GstState :=
| GST_STATE_VOID_PENDING
| GST_STATE_NULL
| GST_STATE_READY
| GST_STATE_PAUSED
| GST_STATE_PLAYING.

(** [GstStateChangeReturn] of gst/gstelement.h. *)
Inductive GstStateChangeReturn :=
| GST_STATE_CHANGE_FAILURE
| GST_STATE_CHANGE_SUCCESS
| GST_STATE_CHANGE_ASYNC
| GST_STATE_CHANGE_NO_PREROLL.

Global Instance GstState_eq_dec : EqDecision GstState.
Proof. solve_decision. Defined.

Global Instance GstStateChangeReturn_eq_dec : EqDecision GstStateChangeReturn.
Proof. solve_decision. Defined.

(** The values [setElementProperty<T>] is instantiated with in the source:
    a C string, an [int], an enumeration constant. *)
Inductive gvalue :=
| GString (s : string)
| GInt (z : Z).

(** A [GCallback]: the callback of this program, or a foreign function. *)
Inductive GCallback :=
| CB_onPadAdded
| CB_foreign (id : N).

Global Instance gvalue_eq_dec : EqDecision gvalue.
Proof. solve_decision. Defined.

Global Instance GCallback_eq_dec : EqDecision GCallback.
Proof. solve_decision. Defined.

(** What a C function reads of [s.c_str()]: the characters before the
    first NUL. *)
Fixpoint c_str (s : string) : string :=
  match s with
  | EmptyString => EmptyString
  | String a s' => if Ascii.eqb a Ascii.zero then EmptyString else String a (c_str s')
  end.

(** A pad is known by its owner and its name; a [GstPad*] may be [NULL]. *)
Definition GstPad : Type := ptr * string.

(** ** The engine's objects *)

Record GstElement := mkElement {
  e_factory : string;
  e_name : option string;
  e_parent : ptr;
  e_state : GstState
}.

Record GstCaps := mkCaps {
  c_desc : string;
  c_refcount : nat
}.

Record GstLink := mkLink {
  l_src : ptr;
  l_srcpad : string;
  l_sink : ptr;
  l_sinkpad : string;
  l_filter : ptr
}.

Record Gst := mkGst {
  gst_elements : gmap N GstElement;
  gst_caps : gmap N GstCaps;
  gst_links : list GstLink;
  gst_props : list (ptr * string * gvalue);
  gst_handlers : list (ptr * string * GCallback * ptr);
  gst_loops : gset N
}.

Definition gst_empty : Gst := mkGst ∅ ∅ [] [] [] ∅.

(** Calls into the engine that create, destroy or change something, in the
    order the program made them, with what the engine answered. *)
Inductive event :=
| Ev_init
| Ev_factory_make (factory : string) (name : option string) (res : ptr)
| Ev_bin_add (bin child : ptr) (ok : bool)
| Ev_object_unref (obj : ptr)
| Ev_caps_from_string (desc : string) (res : ptr)
| Ev_caps_unref (caps : ptr)
| Ev_link (src : ptr) (srcpad : option string) (dst : ptr)
          (dstpad : option string) (filter : ptr) (ok : bool)
| Ev_object_set (obj : ptr) (prop : string) (v : gvalue)
| Ev_signal_connect (obj : ptr) (signal : string) (cb : GCallback) (data : ptr)
| Ev_set_state (obj : ptr) (st : GstState) (res : GstStateChangeReturn)
| Ev_main_loop_new (res : ptr).

Global Instance event_eq_dec : EqDecision event.
Proof. solve_decision. Defined.

(** ** The class and the world it runs in *)

(** The data members of [class GStreamPipeline]; [gstream_pair] is
    [std::pair<GstElement*, GstCaps*>]. *)
Record GStreamPipeline := mkPipeline {
  m_pipeline_map : gmap string (N * N);
  m_pipeline : ptr;
  m_loop : ptr
}.

Record World := mkWorld {
  self : GStreamPipeline;
  gst : Gst;
  trace : list event
}.

(** What the engine decides on its own. *)
Record Oracle := mkOracle {
  o_factory : string → bool;
  o_bin_add : Gst → ptr → ptr → bool;
  o_caps : string → bool;
  o_link : Gst → ptr → option string → ptr → option string → ptr →
           option (string * string);
  o_set_state : Gst → ptr → GstState → GstStateChangeReturn
}.

(** ** State monad *)

Definition M (A : Type) : Type := World → A * World.

Global Instance M_ret : MRet M := λ A a w, (a, w).
Global Instance M_bind : MBind M := λ A B f m w, let (a, w') := m w in f a w'.

Definition gets {A} (f : World → A) : M A := λ w, (f w, w).

Definition modify_gst (f : Gst → Gst) : M unit :=
  λ w, (tt, mkWorld (self w) (f (gst w)) (trace w)).

Definition modify_self (f : GStreamPipeline → GStreamPipeline) : M unit :=
  λ w, (tt, mkWorld (f (self w)) (gst w) (trace w)).

Definition tell (e : event) : M unit :=
  λ w, (tt, mkWorld (self w) (gst w) (trace w ++ [e])%list).

(** Field updates of [Gst]. *)
Definition with_elements (f : gmap N GstElement → gmap N GstElement) (g : Gst) : Gst :=
  mkGst (f (gst_elements g)) (gst_caps g) (gst_links g) (gst_props g)
        (gst_handlers g) (gst_loops g).

Definition with_caps (f : gmap N GstCaps → gmap N GstCaps) (g : Gst) : Gst :=
  mkGst (gst_elements g) (f (gst_caps g)) (gst_links g) (gst_props g)
        (gst_handlers g) (gst_loops g).

Definition with_links (f : list GstLink → list GstLink) (g : Gst) : Gst :=
  mkGst (gst_elements g) (gst_caps g) (f (gst_links g)) (gst_props g)
        (gst_handlers g) (gst_loops g).

Definition with_props (f : list (ptr * string * gvalue) → list (ptr * string * gvalue))
    (g : Gst) : Gst :=
  mkGst (gst_elements g) (gst_caps g) (gst_links g) (f (gst_props g))
        (gst_handlers g) (gst_loops g).

Definition with_handlers
    (f : list (ptr * string * GCallback * ptr) → list (ptr * string * GCallback * ptr))
    (g : Gst) : Gst :=
  mkGst (gst_elements g) (gst_caps g) (gst_links g) (gst_props g)
        (f (gst_handlers g)) (gst_loops g).

Definition with_loops (f : gset N → gset N) (g : Gst) : Gst :=
  mkGst (gst_elements g) (gst_caps g) (gst_links g) (gst_props g)
        (gst_handlers g) (f (gst_loops g)).

(** ** The engine, as far as [main.cpp] calls it

    GStreamer's functions keep their names.  Each one asks the oracle where
    the engine has a choice and otherwise does the book-keeping its
    documentation describes: a call on a pointer that is no live element is
    refused, objects appear at addresses not in use, a caps is freed with its
    last reference. *)

(** An address no live object occupies; never [NULL]. *)
Definition fresh_addr (g : Gst) : ptr :=
  fresh ({[NULL]} ∪ dom (gst_elements g) ∪ dom (gst_caps g) ∪ gst_loops g).

Definition is_element (g : Gst) (p : ptr) : bool :=
  negb (bool_decide (p = NULL)) && bool_decide (is_Some (gst_elements g !! p)).

(** Reading the type tag of a block whose last reference was dropped has no
    meaning in C++; the model then answers as for any pointer that is not a
    caps. *)
Definition is_caps (g : Gst) (p : ptr) : bool :=
  negb (bool_decide (p = NULL)) && bool_decide (is_Some (gst_caps g !! p)).

Definition pad_linked (g : Gst) (pad : GstPad) : bool :=
  existsb (λ l, bool_decide ((l_sink l, l_sinkpad l) = pad)
                || bool_decide ((l_src l, l_srcpad l) = pad)) (gst_links g).

Definition set_parent (parent : ptr) (e : GstElement) : GstElement :=
  mkElement (e_factory e) (e_name e) parent (e_state e).

Definition set_state (st : GstState) (e : GstElement) : GstElement :=
  mkElement (e_factory e) (e_name e) (e_parent e) st.

(** Taking and dropping one reference of a caps. *)
Definition caps_ref (c : ptr) (m : gmap N GstCaps) : gmap N GstCaps :=
  match m !! c with
  | Some k => <[c := mkCaps (c_desc k) (S (c_refcount k))]> m
  | None => m
  end.

Definition caps_unref (c : ptr) (m : gmap N GstCaps) : gmap N GstCaps :=
  match m !! c with
  | Some k =>
      match c_refcount k with
      | S (S n) => <[c := mkCaps (c_desc k) (S n)]> m
      | _ => delete c m
      end
  | None => m
  end.

Section Program.

Context (O : Oracle).

Definition GST_IS_ELEMENT (p : ptr) : M bool := gets (λ w, is_element (gst w) p).

Definition GST_IS_CAPS (p : ptr) : M bool := gets (λ w, is_caps (gst w) p).

(** The new element holds one (floating) reference and has no parent. *)
Definition gst_element_factory_make (factory : string) (name : option string) : M ptr :=
  g ← gets gst;
  if o_factory O factory then
    let p := fresh_addr g in
    modify_gst (with_elements <[p := mkElement factory name NULL GST_STATE_NULL]>) ;;
    tell (Ev_factory_make factory name p) ;;
    mret p
  else
    tell (Ev_factory_make factory name NULL) ;;
    mret NULL.

(** On success the bin becomes the parent and owner of the child; a bin is
    never added to itself. *)
Definition gst_bin_add (bin child : ptr) : M bool :=
  g ← gets gst;
  if negb (bool_decide (bin = child)) && is_element g bin && is_element g child
     && o_bin_add O g bin child then
    modify_gst (with_elements (alter (set_parent bin) child)) ;;
    tell (Ev_bin_add bin child true) ;;
    mret true
  else
    tell (Ev_bin_add bin child false) ;;
    mret false.

(** Dropping the only reference of an element destroys it. *)
Definition gst_object_unref (obj : ptr) : M unit :=
  modify_gst (with_elements (delete obj)) ;;
  tell (Ev_object_unref obj).

(** The caller owns the one reference of the parsed caps. *)
Definition gst_caps_from_string (desc : string) : M ptr :=
  g ← gets gst;
  if o_caps O desc then
    let p := fresh_addr g in
    modify_gst (with_caps <[p := mkCaps desc 1]>) ;;
    tell (Ev_caps_from_string desc p) ;;
    mret p
  else
    tell (Ev_caps_from_string desc NULL) ;;
    mret NULL.

Definition gst_caps_unref (caps : ptr) : M unit :=
  modify_gst (with_caps (caps_unref caps)) ;;
  tell (Ev_caps_unref caps).

(** The core of the three link entry points.  A pad name the caller gives is
    used as given, the others are the engine's choice.  A filter stays with
    the link (the engine keeps its own reference to it) while the caller
    keeps the reference it came with. *)
Definition engine_link (src : ptr) (srcpad : option string) (dst : ptr)
    (dstpad : option string) (filter : ptr) : M bool :=
  g ← gets gst;
  if is_element g src && is_element g dst then
    match o_link O g src srcpad dst dstpad filter with
    | Some (sp, dp) =>
        modify_gst (with_links (λ ls, (ls ++ [mkLink src (default sp srcpad)
                                                     dst (default dp dstpad) filter])%list)) ;;
        (if is_caps g filter then modify_gst (with_caps (caps_ref filter))
         else mret ()) ;;
        tell (Ev_link src srcpad dst dstpad filter true) ;;
        mret true
    | None =>
        tell (Ev_link src srcpad dst dstpad filter false) ;;
        mret false
    end
  else
    tell (Ev_link src srcpad dst dstpad filter false) ;;
    mret false.

Definition gst_element_link (src dst : ptr) : M bool :=
  engine_link src None dst None NULL.

Definition gst_element_link_filtered (src dst filter : ptr) : M bool :=
  engine_link src None dst None filter.

Definition gst_element_link_pads (src : ptr) (srcpad : option string) (dst : ptr)
    (dstpad : string) : M bool :=
  engine_link src srcpad dst (Some dstpad) NULL.

Definition gst_element_get_static_pad (e : ptr) (name : string) : M (option GstPad) :=
  g ← gets gst;
  mret (if is_element g e then Some (e, name) else None).

Definition gst_pad_is_linked (pad : option GstPad) : M bool :=
  g ← gets gst;
  mret (match pad with Some p => pad_linked g p | None => false end).

Definition gst_pad_get_name (pad : option GstPad) : M (option string) :=
  mret (snd <$> pad).

Definition g_object_set (obj : ptr) (prop : string) (v : gvalue) : M unit :=
  modify_gst (with_props (λ ps, (ps ++ [(obj, prop, v)])%list)) ;;
  tell (Ev_object_set obj prop v).

Definition g_signal_connect (obj : ptr) (signal : string) (cb : GCallback)
    (data : ptr) : M unit :=
  modify_gst (with_handlers (λ hs, (hs ++ [(obj, signal, cb, data)])%list)) ;;
  tell (Ev_signal_connect obj signal cb data).

Definition gst_element_set_state (e : ptr) (st : GstState) : M GstStateChangeReturn :=
  g ← gets gst;
  if is_element g e then
    let r := o_set_state O g e st in
    (if decide (r = GST_STATE_CHANGE_FAILURE) then mret ()
     else modify_gst (with_elements (alter (set_state st) e))) ;;
    tell (Ev_set_state e st r) ;;
    mret r
  else
    tell (Ev_set_state e st GST_STATE_CHANGE_FAILURE) ;;
    mret GST_STATE_CHANGE_FAILURE.

(** [gst_init(NULL, NULL)]: the engine's objects are what they were; the
    call is noted. *)
Definition gst_init : M unit := tell Ev_init.

Definition g_main_loop_new : M ptr :=
  g ← gets gst;
  let p := fresh_addr g in
  modify_gst (with_loops (λ s, {[p]} ∪ s)) ;;
  tell (Ev_main_loop_new p) ;;
  mret p.

Definition gst_pipeline_new (name : string) : M ptr :=
  gst_element_factory_make "pipeline" (Some name).

Definition gst_bin_new (name : option string) : M ptr :=
  gst_element_factory_make "bin" name.

(** ** [class GStreamPipeline] *)

(** [m_pipeline_map[element_name] = pair]. *)
Definition map_assign (element_name : string) (entry : N * N) : M unit :=
  modify_self (λ p, mkPipeline (<[element_name := entry]> (m_pipeline_map p))
                               (m_pipeline p) (m_loop p)).

(** [linkElement], lines 36-67.  [gst_caps_to_string] and [g_free] on the
    failure path only serve the diagnostic. *)
Definition linkElement (element caps child_element : ptr)
    (element_name child_element_name : string) : M bool :=
  is_elem ← GST_IS_ELEMENT element;
  if negb is_elem then mret false else
  is_child ← GST_IS_ELEMENT child_element;
  if negb is_child then mret false else
  has_caps ← GST_IS_CAPS caps;
  if has_caps : bool then
    linked ← gst_element_link_filtered element child_element caps;
    if negb linked then
      gst_caps_unref caps ;;
      mret false
    else
      gst_caps_unref caps ;;
      mret true
  else
    linked ← gst_element_link element child_element;
    if negb linked then mret false else mret true.

(** [createElement], lines 75-91. *)
Definition createElement (element element_name : string) (pipe : ptr) : M ptr :=
  if bool_decide (pipe = NULL) then mret NULL else
  output ← gst_element_factory_make (c_str element) (Some (c_str element_name));
  if bool_decide (output = NULL) then mret NULL else
  added ← gst_bin_add pipe output;
  if negb added then
    gst_object_unref output ;;
    mret NULL
  else mret output.

(** The constructor, lines 100-109, after the member initialisers. *)
Definition GStreamPipeline_ctor (pipeline_name : string)
    (init_gstream create_main_loop : bool) : M unit :=
  (if init_gstream then gst_init else mret ()) ;;
  (if create_main_loop then
     l ← g_main_loop_new;
     modify_self (λ p, mkPipeline (m_pipeline_map p) (m_pipeline p) l)
   else mret ()) ;;
  p ← gst_pipeline_new (c_str pipeline_name);
  modify_self (λ s, mkPipeline (m_pipeline_map s) p (m_loop s)).

(** [addElement(element, element_name)], lines 124-134. *)
Definition addElement (element element_name : string) : M bool :=
  pipe ← gets (λ w, m_pipeline (self w));
  new_element ← createElement element element_name pipe;
  is_elem ← GST_IS_ELEMENT new_element;
  if negb is_elem then mret false else
  map_assign element_name (new_element, NULL) ;;
  mret true.

(** [addElement(element, element_name, element_caps)], lines 141-157. *)
Definition addElement_caps (element element_name element_caps : string) : M bool :=
  pipe ← gets (λ w, m_pipeline (self w));
  new_element ← createElement element element_name pipe;
  caps ← gst_caps_from_string (c_str element_caps);
  is_elem ← GST_IS_ELEMENT new_element;
  if negb is_elem then mret false else
  has_caps ← GST_IS_CAPS caps;
  if negb has_caps then mret false else
  map_assign element_name (new_element, caps) ;;
  mret false.

(** [linkElementsByName], lines 163-191: the iterator [begin] walks the
    vector; the body is skipped for the last name. *)
Fixpoint linkElementsByName (element_names : list string) : M bool :=
  match element_names with
  | [] => mret true
  | name :: rest =>
      match rest with
      | [] => mret true
      | child_name :: _ =>
          found ← gets (λ w, m_pipeline_map (self w) !! name);
          child_found ← gets (λ w, m_pipeline_map (self w) !! child_name);
          match found with
          | None => mret false
          | Some parent_pair =>
              match child_found with
              | None => mret false
              | Some child_pair =>
                  linked ← linkElement parent_pair.1 parent_pair.2 child_pair.1
                                       name child_name;
                  if negb linked then mret false
                  else linkElementsByName rest
              end
          end
      end
  end.

(** [setElementSignal], lines 200-212. *)
Definition setElementSignal (element_name signal_name : string)
    (callback : GCallback) (user_data : ptr) : M bool :=
  found ← gets (λ w, m_pipeline_map (self w) !! element_name);
  match found with
  | None => mret false
  | Some entry =>
      let element := entry.1 in
      is_elem ← GST_IS_ELEMENT element;
      if negb is_elem then mret false else
      g_signal_connect element (c_str signal_name) callback user_data ;;
      mret true
  end.

(** [setElementProperty<T>], lines 220-233. *)
Definition setElementProperty (element_name property_name : string)
    (property_value : gvalue) : M bool :=
  found ← gets (λ w, m_pipeline_map (self w) !! element_name);
  match found with
  | None => mret false
  | Some entry =>
      let element := entry.1 in
      is_elem ← GST_IS_ELEMENT element;
      if negb is_elem then mret false else
      g_object_set element (c_str property_name) property_value ;;
      mret true
  end.

(** [getElementByName], lines 239-243. *)
Definition getElementByName (element_name : string) : M ptr :=
  found ← gets (λ w, m_pipeline_map (self w) !! element_name);
  mret (match found with Some entry => entry.1 | None => NULL end).

(** [setElementState], lines 257-264. *)
Definition setElementState (element_name : string) (state : GstState) : M bool :=
  found ← gets (λ w, m_pipeline_map (self w) !! element_name);
  match found with
  | None => mret false
  | Some entry =>
      r ← gst_element_set_state entry.1 state;
      mret (negb (bool_decide (r = GST_STATE_CHANGE_FAILURE)))
  end.

(** [setPipelineState], lines 270-273. *)
Definition setPipelineState (state : GstState) : M bool :=
  pipe ← gets (λ w, m_pipeline (self w));
  r ← gst_element_set_state pipe state;
  mret (negb (bool_decide (r = GST_STATE_CHANGE_FAILURE))).

(** [attachToBin], lines 278-287. *)
Definition attachToBin : M ptr :=
  bin ← gst_bin_new None;
  pipe ← gets (λ w, m_pipeline (self w));
  added ← gst_bin_add bin pipe;
  if negb added then
    gst_object_unref bin ;;
    mret NULL
  else mret bin.

(** The callback [onPadAdded], lines 293-303. *)
Definition onPadAdded (element : ptr) (pad : option GstPad) (data : ptr) : M unit :=
  sink_pad ← gst_element_get_static_pad data "sink";
  linked ← gst_pad_is_linked sink_pad;
  if linked : bool then mret () else
  pad_name ← gst_pad_get_name pad;
  gst_element_link_pads element pad_name data "sink" ;;
  mret ().

End Program.

(** The world right after [GStreamPipeline pipeline(name)] on engine [g]. *)
Definition new_GStreamPipeline (O : Oracle) (pipeline_name : string)
    (init_gstream create_main_loop : bool) (g : Gst) : World :=
  (GStreamPipeline_ctor O pipeline_name init_gstream create_main_loop
     (mkWorld (mkPipeline ∅ NULL NULL) g [])).2.

(** ** Operations a client of the class can issue *)

Inductive op :=
| Op_addElement (element element_name : string)
| Op_addElement_caps (element element_name element_caps : string)
| Op_linkElementsByName (element_names : list string)
| Op_setElementSignal (element_name signal_name : string) (callback : GCallback)
                      (user_data : ptr)
| Op_setElementProperty (element_name property_name : string) (v : gvalue)
| Op_getElementByName (element_name : string)
| Op_setElementState (element_name : string) (state : GstState)
| Op_setPipelineState (state : GstState)
| Op_attachToBin
| Op_onPadAdded (element : ptr) (pad : option GstPad) (data : ptr).

Definition step (O : Oracle) (o : op) : M unit :=
  match o with
  | Op_addElement e n => addElement O e n ;; mret ()
  | Op_addElement_caps e n c => addElement_caps O e n c ;; mret ()
  | Op_linkElementsByName ns => linkElementsByName O ns ;; mret ()
  | Op_setElementSignal n s cb d => setElementSignal n s cb d ;; mret ()
  | Op_setElementProperty n k v => setElementProperty n k v ;; mret ()
  | Op_getElementByName n => getElementByName n ;; mret ()
  | Op_setElementState n st => setElementState O n st ;; mret ()
  | Op_setPipelineState st => setPipelineState O st ;; mret ()
  | Op_attachToBin => attachToBin O ;; mret ()
  | Op_onPadAdded e p d => onPadAdded O e p d
  end.

Fixpoint run (O : Oracle) (os : list op) : M unit :=
  match os with
  | [] => mret ()
  | o :: os' => step O o ;; run O os'
  end.

Definition is_create (o : op) : bool :=
  match o with
  | Op_addElement _ _ | Op_addElement_caps _ _ _ => true
  | _ => false
  end.

(** ** Observations used by the statements *)

(** The registry of a world. *)
Definition registry (w : World) : gmap string (N * N) := m_pipeline_map (self w).

(** Parent of every live element. *)
Definition parents (w : World) : gmap N N := e_parent <$> gst_elements (gst w).

(** The link calls in a trace: source, destination, and the answer. *)
Definition link_attempts (t : list event) : list (N * N * bool) :=
  omap (λ e, match e with
             | Ev_link a _ b _ _ ok => Some (a, b, ok)
             | _ => None
             end) t.

(** How often a caps was released in a trace. *)
Definition releases (c : ptr) (t : list event) : nat :=
  length (filter (λ e, e = Ev_caps_unref c) t).

(** How often [gst_init] was called in a trace. *)
Definition inits (t : list event) : nat :=
  length (filter (λ e, e = Ev_init) t).

(** [names[i], names[i+1]] for all [i]. *)
Definition consecutive (names : list string) : list (string * string) :=
  zip names (tail names).

(** A stage the graph holds: live, not [NULL], child of the pipeline. *)
Definition valid_stage (w : World) (e : ptr) : Prop :=
  e ≠ NULL ∧ is_element (gst w) (m_pipeline (self w)) = true ∧
  parents w !! e = Some (m_pipeline (self w)).

(** ** Relations between the world before and after *)

(** [m] relates every world it starts in to the one it ends in. *)
Definition respects (R : relation World) {A} (m : M A) : Prop := ∀ w, R w (m w).2.

(** What every operation but creation and [attachToBin] keeps: the class
    members are the same, every live element stays live under the same
    parent, and links and trace only grow. *)
Definition frame (w w' : World) : Prop :=
  self w' = self w ∧ parents w' = parents w ∧
  gst_links (gst w) `prefix_of` gst_links (gst w') ∧
  trace w `prefix_of` trace w'.

(** Weaker than [frame]: every live element other than the pipeline keeps
    its parent, and the pipeline stays live.  [attachToBin] fits it. *)
Definition keeps_stages (w w' : World) : Prop :=
  self w' = self w ∧
  (∀ e, e ≠ NULL → e ≠ m_pipeline (self w) → is_Some (parents w !! e) →
        parents w' !! e = parents w !! e) ∧
  (is_element (gst w) (m_pipeline (self w)) = true →
   is_element (gst w') (m_pipeline (self w)) = true).

(** Every registered element is a valid stage, and none is the pipeline. *)
Definition registry_valid (w : World) : Prop :=
  ∀ n e c, registry w !! n = Some (e, c) →
           valid_stage w e ∧ e ≠ m_pipeline (self w).

(** ** Observations on the registry and on linking *)

(** The world after [m_pipeline_map[name] = entry]. *)
Definition stored (name : string) (entry : N * N) (w : World) : World :=
  mkWorld (mkPipeline (<[name := entry]> (registry w)) (m_pipeline (self w))
                      (m_loop (self w)))
          (gst w) (trace w).

(** What the guard of [onPadAdded] reads: [data] is an element and its pad
    ["sink"] has a peer. *)
Definition sink_linked (w : World) (data : ptr) : bool :=
  is_element (gst w) data && pad_linked (gst w) (data, "sink").

(** Links that were made, as opposed to attempted, in a trace. *)
Definition links_made (t : list event) : nat :=
  length (filter (λ a, a.2 = true) (link_attempts t)).

(** The engine calls one [linkElement] makes: none when a handle is not
    live, else one link (filtered when the caps is a caps) and, for a
    filtered link, the release of the caps whatever the answer was. *)
Definition link_events (w : World) (element caps child : ptr) (ok : bool) : list event :=
  if is_element (gst w) element && is_element (gst w) child then
    if is_caps (gst w) caps then
      [Ev_link element None child None caps ok; Ev_caps_unref caps]
    else [Ev_link element None child None NULL ok]
  else [].

(** The two elements a pair of names stands for, when both are registered. *)
Definition endpoints (w : World) (p : string * string) : option (N * N) :=
  match registry w !! p.1, registry w !! p.2 with
  | Some parent_pair, Some child_pair => Some (parent_pair.1, child_pair.1)
  | _, _ => None
  end.

(** Both names of the pair are registered and their elements are live: the
    lookups of [linkElementsByName] and the checks of [linkElement] pass. *)
Definition pair_live (w : World) (p : string * string) : bool :=
  match endpoints w p with
  | Some e => is_element (gst w) e.1 && is_element (gst w) e.2
  | None => false
  end.

(** The link attempts made after the first [n] of a trace. *)
Definition attempts_from (n : nat) (t : list event) : list (N * N * bool) :=
  drop n (link_attempts t).

(** The outcome of a run of [linkElementsByName] from [w] to [w'] with
    result [r].  The pairs [done] were linked one after the other, each
    between the live elements its two names stand for.  The run ended with
    [true] when no pair was left; otherwise it ended with [false] at the
    head of [rest], and for one of three reasons: a name of that pair is not
    registered (nothing attempted), an element of the pair is not live
    (nothing attempted), or the engine refused the link ([failed] is that
    one attempt).  [new] are the links the engine gained. *)
Definition linked_prefix (names : list string) (w w' : World) (r : bool)
    (done rest : list (string * string)) (ends : list (N * N))
    (failed : list (N * N * bool)) (new : list GstLink) : Prop :=
  consecutive names = (done ++ rest)%list ∧
  Forall2 (λ p e, endpoints w p = Some e ∧ pair_live w p = true) done ends ∧
  link_attempts (trace w') =
    (link_attempts (trace w) ++ ((λ e, (e.1, e.2, true)) <$> ends) ++ failed)%list ∧
  gst_links (gst w') = (gst_links (gst w) ++ new)%list ∧
  (λ l, (l_src l, l_sink l)) <$> new = ends ∧
  registry w' = registry w ∧
  match rest with
  | [] => r = true ∧ failed = []
  | p :: _ =>
      r = false ∧
      failed = match endpoints w p with
               | Some e => if pair_live w p then [(e.1, e.2, false)] else []
               | None => []
               end
  end.

(** ** Creation calls *)

(** A call of one of the two [addElement] overloads. *)
Inductive create_call :=
| Create (element element_name : string)
| CreateCaps (element element_name element_caps : string).

Definition call_element (c : create_call) : string :=
  match c with Create e _ | CreateCaps e _ _ => e end.

Definition call_name (c : create_call) : string :=
  match c with Create _ n | CreateCaps _ n _ => n end.

Definition do_create (O : Oracle) (c : create_call) : M bool :=
  match c with
  | Create e n => addElement O e n
  | CreateCaps e n s => addElement_caps O e n s
  end.

(** The handle a call creates, when the call succeeds: the element that
    [createElement] returns, provided it is not [NULL] and, for the overload
    with caps, the caps string parsed. *)
Definition created_handle (O : Oracle) (c : create_call) (w : World) : option N :=
  let created := createElement O (call_element c) (call_name c) (m_pipeline (self w)) w in
  match c with
  | Create _ _ => if bool_decide (created.1 = NULL) then None else Some created.1
  | CreateCaps _ _ s =>
      let caps := (gst_caps_from_string O (c_str s) created.2).1 in
      if bool_decide (created.1 = NULL) || bool_decide (caps = NULL) then None
      else Some created.1
  end.

(** Runs the calls in order; reports the handle of each. *)
Fixpoint run_creates (O : Oracle) (cs : list create_call) (w : World)
    : list (option N) * World :=
  match cs with
  | [] => ([], w)
  | c :: cs' =>
      let r := run_creates O cs' (do_create O c w).2 in
      (created_handle O c w :: r.1, r.2)
  end.



(** ** Concrete engines and worlds *)

(** Every plugin but ["nosuch"] exists, every caps string but ["garbage"]
    parses, bins accept every child, every link negotiates on the pads
    ["src"] and ["sink"], and every state change is accepted. *)
Definition demo_engine : Oracle :=
  mkOracle (λ factory, negb (String.eqb factory "nosuch"))
           (λ _ _ _, true)
           (λ desc, negb (String.eqb desc "garbage"))
           (λ _ _ _ _ _ _, Some ("src", "sink"))
           (λ _ _ _, GST_STATE_CHANGE_SUCCESS).

(** As [demo_engine], but no link ever negotiates. *)
Definition demo_refusing : Oracle :=
  mkOracle (o_factory demo_engine) (o_bin_add demo_engine) (o_caps demo_engine)
           (λ _ _ _ _ _ _, None) (o_set_state demo_engine).



(** [GStreamPipeline pipeline("RTSP_SERVER")]: the main loop is at address 1
    and the pipeline at address 2. *)
Definition demo_start : World :=
  new_GStreamPipeline demo_engine "RTSP_SERVER" true true gst_empty.

(** The end of [runSimplePipeline]'s construction: the converter with its
    caps (element 3, caps 4) and the sink (element 5). *)
Definition demo_built : World :=
  (run demo_engine
     [Op_addElement_caps "videoconvert" "videoconvert" "video/x-raw, format=(string)I420";
      Op_addElement "autovideosink" "videosink"] demo_start).2.

(** The last three stages of [runSimplePipeline]: the rate adapter
    (element 3), the converter with its caps (element 4, caps 5) and the sink
    (element 6). *)
Definition demo_tail : World :=
  (run demo_engine
     [Op_addElement "videorate" "videorate";
      Op_addElement_caps "videoconvert" "videoconvert" "video/x-raw, format=(string)I420";
      Op_addElement "autovideosink" "videosink"] demo_start).2.

(** [demo_built] after its two elements were linked: the sink pad of the
    video sink (element 5) has a peer. *)
Definition demo_linked : World :=
  (linkElementsByName demo_engine ["videoconvert"; "videosink"] demo_built).2.

(** ** The caller, and observations for the further properties *)

(** [GST_RTSP_LOWER_TRANS_UDP] of gst/rtsp/gstrtsptransport.h, [1 << 0]. *)
Definition GST_RTSP_LOWER_TRANS_UDP : Z := 1.

(** [runSimplePipeline], lines 306-327, from the declaration of [pipeline]
    to [setPipelineState]; the call of [runMainLoop] that follows blocks in
    the engine.  What the methods return is dropped, as in the source. *)
Definition runSimplePipeline (O : Oracle) (location : string) : M unit :=
  GStreamPipeline_ctor O "RTSP_SERVER" true true ;;
  addElement O "rtspsrc" "rtspsrc" ;;
  addElement O "rtph264depay" "videodepay" ;;
  addElement O "h264parse" "h264parse" ;;
  addElement O "avdec_h264" "videodecode" ;;
  addElement O "videoscale" "videoscale" ;;
  addElement O "videorate" "videorate" ;;
  addElement_caps O "videoconvert" "videoconvert" "video/x-raw, format=(string)I420" ;;
  addElement O "autovideosink" "videosink" ;;
  setElementProperty "rtspsrc" "location" (GString (c_str location)) ;;
  setElementProperty "rtspsrc" "protocols" (GInt GST_RTSP_LOWER_TRANS_UDP) ;;
  setElementProperty "rtspsrc" "latency" (GInt 0) ;;
  linkElementsByName O ["videodepay"; "h264parse"; "videodecode"; "videoscale";
                        "videorate"; "videoconvert"; "videosink"] ;;
  depay ← getElementByName "videodepay";
  setElementSignal "rtspsrc" "pad-added" CB_onPadAdded depay ;;
  setPipelineState O GST_STATE_PLAYING ;;
  mret ().

(** The world [runSimplePipeline] leaves on the engine state [g]. *)
Definition simple_pipeline (O : Oracle) (location : string) (g : Gst) : World :=
  (runSimplePipeline O location (mkWorld (mkPipeline ∅ NULL NULL) g [])).2.

(** The name an operation registers, when it is a creation. *)
Definition created_name (o : op) : option string :=
  match o with
  | Op_addElement _ n | Op_addElement_caps _ n _ => Some n
  | _ => None
  end.

(** The worlds a client reaches: a constructed pipeline, then operations. *)
Definition reachable (O : Oracle) (w : World) : Prop :=
  ∃ pipeline_name init_gstream create_main_loop g os,
    w = (run O os (new_GStreamPipeline O pipeline_name init_gstream
                     create_main_loop g)).2.

(** The callback fired once for each pad of [pads], in order. *)
Definition pads_added (element data : ptr) (pads : list (option GstPad)) : list op :=
  (λ pad, Op_onPadAdded element pad data) <$> pads.

(** No property was set and no handler connected between [w] and [w']. *)
Definition same_settings (w w' : World) : Prop :=
  gst_props (gst w') = gst_props (gst w) ∧
  gst_handlers (gst w') = gst_handlers (gst w).

(** No link was attempted between [w] and [w']. *)
Definition same_attempts (w w' : World) : Prop :=
  link_attempts (trace w') = link_attempts (trace w).

(** No element is registered under two names. *)
Definition registry_injective (w : World) : Prop :=
  ∀ n1 n2 e c1 c2,
    registry w !! n1 = Some (e, c1) → registry w !! n2 = Some (e, c2) → n1 = n2.

(** The name a creation with caps registers. *)
Definition caps_created_name (o : op) : option string :=
  match o with
  | Op_addElement_caps _ n _ => Some n
  | _ => None
  end.

(** The names [runSimplePipeline] creates elements under, and the ones it
    links in a row. *)
Definition simple_names : list string :=
  ["rtspsrc"; "videodepay"; "h264parse"; "videodecode"; "videoscale"; "videorate";
   "videoconvert"; "videosink"].

Definition simple_chain : list string :=
  ["videodepay"; "h264parse"; "videodecode"; "videoscale"; "videorate";
   "videoconvert"; "videosink"].

(** The eight creations of [runSimplePipeline], as operations. *)
Definition simple_creates : list op :=
  [Op_addElement "rtspsrc" "rtspsrc";
   Op_addElement "rtph264depay" "videodepay";
   Op_addElement "h264parse" "h264parse";
   Op_addElement "avdec_h264" "videodecode";
   Op_addElement "videoscale" "videoscale";
   Op_addElement "videorate" "videorate";
   Op_addElement_caps "videoconvert" "videoconvert" "video/x-raw, format=(string)I420";
   Op_addElement "autovideosink" "videosink"].

(** The three properties [runSimplePipeline] sets, on the element [e]. *)
Definition simple_props (location : string) (e : ptr) : list (ptr * string * gvalue) :=
  [(e, "location", GString (c_str location));
   (e, "protocols", GInt GST_RTSP_LOWER_TRANS_UDP);
   (e, "latency", GInt 0)].


(** An engine that has no plugin at all, not even ["pipeline"]. *)
Definition demo_bare : Oracle :=
  mkOracle (λ _, false) (o_bin_add demo_engine) (o_caps demo_engine)
           (o_link demo_engine) (o_set_state demo_engine).

(** * Proofs *)

(** ** Computations that keep a relation between the worlds *)

Section Respects.

Context (R : relation World) `{!PreOrder R}.

Lemma respects_ret {A} (a : A) : respects R (mret a).
Proof. intros w. simpl. reflexivity. Qed.

Lemma respects_gets {A} (f : World → A) : respects R (gets f).
Proof. intros w. simpl. reflexivity. Qed.

Lemma respects_bind {A B} (m : M A) (f : A → M B) :
  respects R m → (∀ a, respects R (f a)) → respects R (m ≫= f).
Proof.
  intros Hm Hf w. unfold mbind, M_bind.
  specialize (Hm w). destruct (m w) as [a w1]. simpl in Hm.
  etrans; [exact Hm | apply Hf].
Qed.

End Respects.

(** Splits a monadic program along its binds, branches and matches, and
    leaves the engine calls to the hint database [db]. *)
Ltac respects_with db :=
  repeat first
    [ solve [apply respects_ret; apply _]
    | solve [apply respects_gets; apply _]
    | solve [eauto with db]
    | apply respects_bind; [apply _ | | intros ?]
    | match goal with
      | |- respects _ (if ?b then _ else _) => destruct b
      | |- respects _ (match ?x with _ => _ end) => destruct x
      end ].

(** ** The frame of everything but creation *)

Global Instance frame_preorder : PreOrder frame.
Proof.
  split.
  - intros w. unfold frame. done.
  - intros w1 w2 w3 (Hs1 & Hp1 & Hl1 & Ht1) (Hs2 & Hp2 & Hl2 & Ht2).
    unfold frame. repeat split; try congruence; etrans; eauto.
Qed.

Create HintDb frame_db.

Lemma frame_tell e : respects frame (tell e).
Proof.
  intros w. unfold frame, tell, parents. simpl.
  repeat split; try done. by apply prefix_app_r.
Qed.

Lemma frame_modify_gst f :
  (∀ g, e_parent <$> gst_elements (f g) = e_parent <$> gst_elements g) →
  (∀ g, gst_links g `prefix_of` gst_links (f g)) →
  respects frame (modify_gst f).
Proof.
  intros Hp Hl w. unfold frame, modify_gst, parents. simpl. repeat split; auto.
Qed.

Lemma parents_alter_state st e (m : gmap N GstElement) :
  e_parent <$> alter (set_state st) e m = e_parent <$> m.
Proof.
  apply map_eq. intros i. rewrite !lookup_fmap.
  destruct (decide (e = i)) as [->|Hne].
  - rewrite lookup_alter_eq. by destruct (m !! i).
  - by rewrite lookup_alter_ne.
Qed.

Lemma frame_GST_IS_ELEMENT p : respects frame (GST_IS_ELEMENT p).
Proof. apply respects_gets; apply _. Qed.

Lemma frame_GST_IS_CAPS p : respects frame (GST_IS_CAPS p).
Proof. apply respects_gets; apply _. Qed.

Lemma frame_gst_caps_unref c : respects frame (gst_caps_unref c).
Proof.
  unfold gst_caps_unref. apply respects_bind; [apply _ | | intros ?; apply frame_tell].
  by apply frame_modify_gst.
Qed.

Lemma frame_engine_link O src srcpad dst dstpad filter :
  respects frame (engine_link O src srcpad dst dstpad filter).
Proof.
  unfold engine_link.
  apply respects_bind; [apply _ | apply respects_gets; apply _ | intros g].
  destruct (is_element g src && is_element g dst).
  - destruct (o_link O g src srcpad dst dstpad filter) as [[sp dp]|].
    + apply respects_bind; [apply _ | | intros ?].
      { apply frame_modify_gst; [done | intros g'; simpl; by apply prefix_app_r]. }
      apply respects_bind; [apply _ | | intros ?].
      { destruct (is_caps g filter); [by apply frame_modify_gst |].
        apply respects_ret; apply _. }
      apply respects_bind; [apply _ | apply frame_tell | intros ?].
      apply respects_ret; apply _.
    + apply respects_bind; [apply _ | apply frame_tell | intros ?].
      apply respects_ret; apply _.
  - apply respects_bind; [apply _ | apply frame_tell | intros ?].
    apply respects_ret; apply _.
Qed.

Lemma frame_g_object_set obj prop v : respects frame (g_object_set obj prop v).
Proof.
  unfold g_object_set. apply respects_bind; [apply _ | | intros ?; apply frame_tell].
  by apply frame_modify_gst.
Qed.

Lemma frame_g_signal_connect obj s cb d : respects frame (g_signal_connect obj s cb d).
Proof.
  unfold g_signal_connect. apply respects_bind; [apply _ | | intros ?; apply frame_tell].
  by apply frame_modify_gst.
Qed.

Lemma frame_gst_element_set_state O e st : respects frame (gst_element_set_state O e st).
Proof.
  unfold gst_element_set_state.
  apply respects_bind; [apply _ | apply respects_gets; apply _ | intros g].
  destruct (is_element g e).
  - apply respects_bind; [apply _ | | intros ?].
    { destruct (decide _); [apply respects_ret; apply _ |].
      apply frame_modify_gst; [| done].
      intros g'. simpl. apply parents_alter_state. }
    apply respects_bind; [apply _ | apply frame_tell | intros ?].
    apply respects_ret; apply _.
  - apply respects_bind; [apply _ | apply frame_tell | intros ?].
    apply respects_ret; apply _.
Qed.

Lemma frame_gst_element_get_static_pad e n :
  respects frame (gst_element_get_static_pad e n).
Proof.
  unfold gst_element_get_static_pad.
  apply respects_bind; [apply _ | apply respects_gets; apply _ | intros g].
  apply respects_ret; apply _.
Qed.

Lemma frame_gst_pad_is_linked p : respects frame (gst_pad_is_linked p).
Proof.
  unfold gst_pad_is_linked.
  apply respects_bind; [apply _ | apply respects_gets; apply _ | intros g].
  apply respects_ret; apply _.
Qed.

Lemma frame_gst_pad_get_name p : respects frame (gst_pad_get_name p).
Proof. apply respects_ret; apply _. Qed.

#[export] Hint Resolve frame_tell frame_GST_IS_ELEMENT frame_GST_IS_CAPS
  frame_gst_caps_unref frame_engine_link frame_g_object_set frame_g_signal_connect
  frame_gst_element_set_state frame_gst_element_get_static_pad
  frame_gst_pad_is_linked frame_gst_pad_get_name : frame_db.

Lemma frame_linkElement O e c ch n1 n2 : respects frame (linkElement O e c ch n1 n2).
Proof.
  unfold linkElement, gst_element_link_filtered, gst_element_link.
  respects_with frame_db.
Qed.

#[export] Hint Resolve frame_linkElement : frame_db.

(** One turn of the loop of [linkElementsByName]. *)
Lemma linkElementsByName_step O name child_name rest :
  linkElementsByName O (name :: child_name :: rest) =
  (found ← gets (λ w, m_pipeline_map (self w) !! name);
   child_found ← gets (λ w, m_pipeline_map (self w) !! child_name);
   match found with
   | None => mret false
   | Some parent_pair =>
       match child_found with
       | None => mret false
       | Some child_pair =>
           linked ← linkElement O parent_pair.1 parent_pair.2 child_pair.1
                                name child_name;
           if negb linked then mret false
           else linkElementsByName O (child_name :: rest)
       end
   end).
Proof. reflexivity. Qed.

Lemma frame_linkElementsByName O names : respects frame (linkElementsByName O names).
Proof.
  induction names as [|name rest IH]; [apply respects_ret; apply _ |].
  destruct rest as [|child_name rest']; [apply respects_ret; apply _ |].
  rewrite linkElementsByName_step.
  respects_with frame_db.
Qed.

Lemma frame_setElementSignal n s cb d : respects frame (setElementSignal n s cb d).
Proof. unfold setElementSignal. respects_with frame_db. Qed.

Lemma frame_setElementProperty n k v : respects frame (setElementProperty n k v).
Proof. unfold setElementProperty. respects_with frame_db. Qed.

Lemma frame_getElementByName n : respects frame (getElementByName n).
Proof. unfold getElementByName. respects_with frame_db. Qed.

Lemma frame_setElementState O n st : respects frame (setElementState O n st).
Proof. unfold setElementState. respects_with frame_db. Qed.

Lemma frame_setPipelineState O st : respects frame (setPipelineState O st).
Proof. unfold setPipelineState. respects_with frame_db. Qed.

Lemma frame_onPadAdded O e p d : respects frame (onPadAdded O e p d).
Proof. unfold onPadAdded, gst_element_link_pads. respects_with frame_db. Qed.

#[export] Hint Resolve frame_linkElementsByName frame_setElementSignal
  frame_setElementProperty frame_getElementByName frame_setElementState
  frame_setPipelineState frame_onPadAdded : frame_db.

(** ** A property set on a missing name (C9) *)

(** C9: for a name that is not in the registry, [setElementProperty]
    returns [false] and leaves the whole world as it was: the registry, the
    engine and the trace. *)
Theorem setElementProperty_missing (name key : string) (v : gvalue) (w : World) :
  registry w !! name = None →
  setElementProperty name key v w = (false, w).
Proof.
  intros Hnone. unfold setElementProperty, mbind, M_bind, gets.
  unfold registry in Hnone. by rewrite Hnone.
Qed.

(** ** Allocation *)

Lemma fresh_addr_spec (g : Gst) :
  fresh_addr g ≠ NULL ∧ gst_elements g !! fresh_addr g = None ∧
  gst_caps g !! fresh_addr g = None ∧ fresh_addr g ∉ gst_loops g.
Proof.
  pose proof (is_fresh ({[NULL]} ∪ dom (gst_elements g) ∪ dom (gst_caps g)
                        ∪ gst_loops g)) as Hf.
  fold (fresh_addr g) in Hf.
  rewrite !not_elem_of_union in Hf. destruct Hf as [[[Hn He] Hc] Hl].
  split_and!; [set_solver | by apply not_elem_of_dom | by apply not_elem_of_dom | done].
Qed.

Lemma is_element_true g p :
  is_element g p = true ↔ p ≠ NULL ∧ is_Some (gst_elements g !! p).
Proof.
  unfold is_element. rewrite andb_true_iff, negb_true_iff.
  rewrite bool_decide_eq_false, bool_decide_eq_true. done.
Qed.

Lemma is_caps_true g p :
  is_caps g p = true ↔ p ≠ NULL ∧ is_Some (gst_caps g !! p).
Proof.
  unfold is_caps. rewrite andb_true_iff, negb_true_iff.
  rewrite bool_decide_eq_false, bool_decide_eq_true. done.
Qed.

(** ** What [createElement] does to the world *)

(** Unfolds the plumbing of the state monad. *)
Ltac unfold_M :=
  unfold mbind, M_bind, mret, M_ret, gets, modify_gst, modify_self, tell in *.

Lemma gst_element_factory_make_spec (O : Oracle) factory name w r w1 :
  gst_element_factory_make O factory name w = (r, w1) →
  self w1 = self w ∧ trace w1 = (trace w ++ [Ev_factory_make factory name r])%list ∧
  ((r = NULL ∧ o_factory O factory = false ∧ gst w1 = gst w) ∨
   (r = fresh_addr (gst w) ∧ o_factory O factory = true ∧
    gst w1 = with_elements <[r := mkElement factory name NULL GST_STATE_NULL]> (gst w))).
Proof.
  unfold gst_element_factory_make. unfold_M.
  destruct (o_factory O factory); intros [= <- <-]; simpl; split_and!; auto.
Qed.

Lemma gst_bin_add_spec (O : Oracle) bin child w ok w1 :
  gst_bin_add O bin child w = (ok, w1) →
  self w1 = self w ∧ trace w1 = (trace w ++ [Ev_bin_add bin child ok])%list ∧
  ((ok = false ∧ gst w1 = gst w) ∨
   (ok = true ∧ bin ≠ child ∧ is_element (gst w) bin = true ∧
    is_element (gst w) child = true ∧
    gst w1 = with_elements (alter (set_parent bin) child) (gst w))).
Proof.
  unfold gst_bin_add. unfold_M.
  destruct (bool_decide (bin = child)) eqn:Hne,
    (is_element (gst w) bin) eqn:Hb, (is_element (gst w) child) eqn:Hc,
    (o_bin_add O (gst w) bin child) eqn:Ho;
    intros [= <- <-]; simpl; split_and!; auto.
  apply bool_decide_eq_false in Hne. right. auto.
Qed.

(** Either nothing of the engine's state changed and the result is [NULL],
    or the result is a fresh element that is now a child of [pipe]. *)
Lemma createElement_spec (O : Oracle) (element name : string) (pipe : ptr) w r w' :
  createElement O element name pipe w = (r, w') →
  self w' = self w ∧ trace w `prefix_of` trace w' ∧
  ((r = NULL ∧ gst w' = gst w) ∨
   (r ≠ NULL ∧ gst_elements (gst w) !! r = None ∧ gst_caps (gst w) !! r = None ∧
    is_element (gst w) pipe = true ∧ o_factory O (c_str element) = true ∧
    gst w' = with_elements
               <[r := mkElement (c_str element) (Some (c_str name)) pipe GST_STATE_NULL]>
               (gst w))).
Proof.
  unfold createElement.
  destruct (bool_decide (pipe = NULL)) eqn:Hpipe.
  { intros [= <- <-]. split_and!; auto. }
  apply bool_decide_eq_false in Hpipe.
  unfold mbind at 1, M_bind at 1.
  destruct (gst_element_factory_make O (c_str element) (Some (c_str name)) w)
    as [output w1] eqn:Hmake.
  apply gst_element_factory_make_spec in Hmake as (Hs1 & Ht1 & Hmake).
  destruct Hmake as [(-> & _ & Hg1) | (-> & Hfac & Hg1)].
  { simpl. intros [= <- <-]. split_and!; auto. rewrite Ht1. by apply prefix_app_r. }
  destruct (fresh_addr_spec (gst w)) as (Hnull & Hel & Hcaps & _).
  set (p := fresh_addr (gst w)) in *.
  rewrite bool_decide_eq_false_2 by done.
  unfold mbind at 1, M_bind at 1.
  destruct (gst_bin_add O pipe p w1) as [added w2] eqn:Hadd.
  apply gst_bin_add_spec in Hadd as (Hs2 & Ht2 & Hadd).
  destruct Hadd as [(-> & Hg2) | (-> & Hne & Hpipe_el & _ & Hg2)]; simpl.
  - unfold gst_object_unref. unfold_M. intros [= <- <-]. simpl.
    split_and!; [congruence | |].
    + rewrite Ht2, Ht1, <- !app_assoc. by apply prefix_app_r.
    + left. split; [done|]. rewrite Hg2, Hg1. destruct (gst w). unfold with_elements.
      simpl in *. f_equal. by apply delete_insert_id.
  - intros [= <- <-]. split_and!; [congruence | |].
    + rewrite Ht2, Ht1, <- !app_assoc. by apply prefix_app_r.
    + right. split_and!; auto.
      * rewrite Hg1 in Hpipe_el. apply is_element_true in Hpipe_el as [_ Hsome].
        apply is_element_true. split; [done|]. simpl in Hsome.
        rewrite lookup_insert_ne in Hsome; [done|]. by intros <-.
      * rewrite Hg2, Hg1. unfold with_elements. simpl. f_equal.
        by rewrite alter_insert_eq.
Qed.

Lemma gst_caps_from_string_spec (O : Oracle) desc w c w1 :
  gst_caps_from_string O desc w = (c, w1) →
  self w1 = self w ∧ trace w1 = (trace w ++ [Ev_caps_from_string desc c])%list ∧
  ((c = NULL ∧ o_caps O desc = false ∧ gst w1 = gst w) ∨
   (c = fresh_addr (gst w) ∧ o_caps O desc = true ∧
    gst w1 = with_caps <[c := mkCaps desc 1]> (gst w))).
Proof.
  unfold gst_caps_from_string. unfold_M.
  destruct (o_caps O desc); intros [= <- <-]; simpl; split_and!; auto.
Qed.

(** ** The two [addElement] overloads, case by case *)

Lemma addElement_spec (O : Oracle) element name w r w1 :
  createElement O element name (m_pipeline (self w)) w = (r, w1) →
  addElement O element name w =
    if bool_decide (r = NULL) then (false, w1) else (true, stored name (r, NULL) w1).
Proof.
  intros Hcreate. unfold addElement. unfold mbind at 1, M_bind at 1. simpl.
  unfold mbind at 1, M_bind at 1. rewrite Hcreate.
  apply createElement_spec in Hcreate as (Hs & _ & [(-> & Hg) | (Hr & _ & _ & _ & _ & Hg)]).
  - unfold GST_IS_ELEMENT. unfold_M. simpl. done.
  - rewrite bool_decide_eq_false_2 by done.
    unfold GST_IS_ELEMENT, map_assign. unfold_M. simpl.
    replace (is_element (gst w1) r) with true; [done|].
    symmetry. apply is_element_true. split; [done|]. rewrite Hg. simpl.
    rewrite lookup_insert_eq. eauto.
Qed.

Lemma addElement_caps_spec (O : Oracle) element name desc w r w1 c w2 :
  createElement O element name (m_pipeline (self w)) w = (r, w1) →
  gst_caps_from_string O (c_str desc) w1 = (c, w2) →
  addElement_caps O element name desc w =
    if bool_decide (r = NULL) || bool_decide (c = NULL) then (false, w2)
    else (false, stored name (r, c) w2).
Proof.
  intros Hcreate Hparse. unfold addElement_caps. unfold mbind at 1, M_bind at 1. simpl.
  unfold mbind at 1, M_bind at 1. rewrite Hcreate.
  unfold mbind at 1, M_bind at 1. rewrite Hparse.
  apply createElement_spec in Hcreate as (Hs & _ & Hcreate).
  apply gst_caps_from_string_spec in Hparse as (Hs2 & _ & Hparse).
  unfold GST_IS_ELEMENT, GST_IS_CAPS, map_assign. unfold_M. simpl.
  assert (gst_elements (gst w2) = gst_elements (gst w1)) as Hel.
  { destruct Hparse as [(_ & _ & ->) | (_ & _ & ->)]; done. }
  destruct Hcreate as [(-> & Hg) | (Hr & _ & _ & _ & _ & Hg)].
  { done. }
  rewrite (bool_decide_eq_false_2 (r = NULL)) by done. simpl.
  replace (is_element (gst w2) r) with true.
  2:{ symmetry. apply is_element_true. split; [done|]. rewrite Hel, Hg. simpl.
      rewrite lookup_insert_eq. eauto. }
  simpl. destruct Hparse as [(-> & _ & Hg2) | (-> & _ & Hg2)]; [done|].
  destruct (fresh_addr_spec (gst w1)) as (Hnull & _).
  rewrite bool_decide_eq_false_2 by done.
  replace (is_caps (gst w2) (fresh_addr (gst w1))) with true; [done|].
  symmetry. apply is_caps_true. split; [done|]. rewrite Hg2. simpl.
  rewrite lookup_insert_eq. eauto.
Qed.

(** The three-argument overload has no path that returns [true]. *)
Lemma addElement_caps_false (O : Oracle) element name desc w :
  (addElement_caps O element name desc w).1 = false.
Proof.
  destruct (createElement O element name (m_pipeline (self w)) w) as [r w1] eqn:Hc.
  destruct (gst_caps_from_string O (c_str desc) w1) as [c w2] eqn:Hp.
  rewrite (addElement_caps_spec _ _ _ _ _ _ _ _ _ Hc Hp).
  by destruct (bool_decide (r = NULL) || bool_decide (c = NULL)).
Qed.

(** A failing two-argument [addElement] leaves the class and the engine as
    they were: what [createElement] allocated it released again. *)
Lemma addElement_failure_clean (O : Oracle) element name w w' :
  addElement O element name w = (false, w') →
  self w' = self w ∧ gst w' = gst w.
Proof.
  destruct (createElement O element name (m_pipeline (self w)) w) as [r w1] eqn:Hc.
  rewrite (addElement_spec _ _ _ _ _ _ Hc).
  apply createElement_spec in Hc as (Hs & _ & Hc).
  destruct (bool_decide (r = NULL)) eqn:Hr; [|done].
  intros [= <-]. apply bool_decide_eq_true in Hr.
  destruct Hc as [(_ & Hg) | (Hne & _)]; done.
Qed.

(** ** C1: the three-argument [addElement] *)

(** C1 (the code departs from the claim): with the plugin available, the
    element attached and the caps string parsed, the three-argument
    [addElement] stores the handle in the registry and still returns [false]. *)
Theorem addElement_caps_reports_failure_on_success :
  let call := addElement_caps demo_engine "videoconvert" "videoconvert"
                "video/x-raw, format=(string)I420" demo_start in
  call.1 = false ∧
  registry call.2 !! "videoconvert" = Some (3, 4) ∧
  valid_stage call.2 3 ∧
  gst_caps (gst call.2) !! 4 = Some (mkCaps "video/x-raw, format=(string)I420" 1).
Proof. vm_compute. split_and!; done. Qed.

(** ** C4: what a failing create leaves behind *)

(** C4 (the code departs from the claim): a failing three-argument
    [addElement] keeps the registry as it was but not the engine.  With an
    unknown plugin and a good caps string the parsed caps (address 3) stays
    allocated with its one reference and is never released; with a good
    plugin and a bad caps string the new element (address 3) stays a child of
    the pipeline (address 2) without a registry entry. *)
Theorem addElement_caps_failure_keeps_resources :
  let lost_caps := addElement_caps demo_engine "nosuch" "conv" "video/x-raw" demo_start in
  let lost_stage := addElement_caps demo_engine "videoconvert" "conv" "garbage" demo_start in
  (lost_caps.1 = false ∧ registry lost_caps.2 = registry demo_start ∧
   gst_caps (gst demo_start) !! 3 = None ∧
   gst_caps (gst lost_caps.2) !! 3 = Some (mkCaps "video/x-raw" 1) ∧
   releases 3 (trace lost_caps.2) = 0%nat) ∧
  (lost_stage.1 = false ∧ registry lost_stage.2 = registry demo_start ∧
   gst_elements (gst demo_start) !! 3 = None ∧
   gst_elements (gst lost_stage.2) !! 3 =
     Some (mkElement "videoconvert" (Some "conv") 2 GST_STATE_NULL) ∧
   Ev_object_unref 3 ∉ trace lost_stage.2).
Proof.
  vm_compute. split_and!; try done.
  intros Hin. repeat (apply elem_of_cons in Hin as [Hin|Hin]; [done|]).
  by apply elem_of_nil in Hin.
Qed.

(** ** Linking: one call into the engine *)

Lemma engine_link_spec (O : Oracle) src sp dst dp filter w ok w1 :
  engine_link O src sp dst dp filter w = (ok, w1) →
  self w1 = self w ∧ gst_elements (gst w1) = gst_elements (gst w) ∧
  trace w1 = (trace w ++ [Ev_link src sp dst dp filter ok])%list ∧
  if ok then
    is_element (gst w) src = true ∧ is_element (gst w) dst = true ∧
    (∃ l, gst_links (gst w1) = (gst_links (gst w) ++ [l])%list ∧
          l_src l = src ∧ l_sink l = dst ∧ l_filter l = filter ∧
          (∀ n, sp = Some n → l_srcpad l = n) ∧ (∀ n, dp = Some n → l_sinkpad l = n)) ∧
    gst_caps (gst w1) =
      (if is_caps (gst w) filter then caps_ref filter (gst_caps (gst w))
       else gst_caps (gst w))
  else gst w1 = gst w.
Proof.
  unfold engine_link. unfold_M.
  destruct (is_element (gst w) src) eqn:Hs, (is_element (gst w) dst) eqn:Hd; simpl;
    try (intros [= <- <-]; simpl; split_and!; done).
  destruct (o_link O (gst w) src sp dst dp filter) as [[spn dpn]|];
    [| intros [= <- <-]; simpl; split_and!; done].
  destruct (is_caps (gst w) filter) eqn:Hc; intros [= <- <-]; simpl;
    (split_and!; try done;
     eexists; split_and!; [done | done | done | done | |]; intros n ->; done).
Qed.

Lemma link_attempts_app t1 t2 :
  link_attempts (t1 ++ t2) = (link_attempts t1 ++ link_attempts t2)%list.
Proof. unfold link_attempts. apply omap_app. Qed.

Lemma links_made_snoc t src sp dst dp filter ok :
  links_made (t ++ [Ev_link src sp dst dp filter ok]) =
  (links_made t + if ok then 1 else 0)%nat.
Proof.
  unfold links_made. rewrite link_attempts_app, filter_app, length_app. simpl.
  by destruct ok.
Qed.

Lemma onPadAdded_spec (O : Oracle) element pad data w :
  if sink_linked w data then onPadAdded O element pad data w = (tt, w)
  else ∃ ok, onPadAdded O element pad data w =
             (tt, (engine_link O element (snd <$> pad) data (Some "sink") NULL w).2) ∧
             (engine_link O element (snd <$> pad) data (Some "sink") NULL w).1 = ok.
Proof.
  unfold sink_linked, onPadAdded, gst_element_get_static_pad, gst_pad_is_linked,
    gst_pad_get_name, gst_element_link_pads. unfold_M. simpl.
  destruct (is_element (gst w) data) eqn:Hel; simpl.
  - destruct (pad_linked (gst w) (data, "sink")); [done|].
    destruct (engine_link O element (snd <$> pad) data (Some "sink") NULL w). eauto.
  - destruct (engine_link O element (snd <$> pad) data (Some "sink") NULL w). eauto.
Qed.

Lemma pad_linked_snoc g l ls :
  gst_links g = (ls ++ [l])%list → pad_linked g (l_sink l, l_sinkpad l) = true.
Proof.
  intros Heq. unfold pad_linked. rewrite Heq, existsb_app. simpl.
  rewrite bool_decide_eq_true_2 by done. simpl. by rewrite orb_true_r.
Qed.

(** ** C5: the pad-added callback *)

(** C5: when the target's ["sink"] pad is already linked the callback
    returns with the world untouched (no engine call, no link); and of two
    invocations in a row for two pads of one source against one target at
    most one link is made, and if the first made it the second changes
    nothing. *)
Theorem onPadAdded_links_at_most_once (O : Oracle) (element data : ptr) (w : World) :
  (∀ pad, sink_linked w data = true → onPadAdded O element pad data w = (tt, w)) ∧
  (∀ pad1 pad2,
      let w1 := (onPadAdded O element pad1 data w).2 in
      let w2 := (onPadAdded O element pad2 data w1).2 in
      (links_made (trace w2) ≤ S (links_made (trace w)))%nat ∧
      (length (gst_links (gst w2)) ≤ S (length (gst_links (gst w))))%nat ∧
      (links_made (trace w1) = S (links_made (trace w)) →
       onPadAdded O element pad2 data w1 = (tt, w1))).
Proof.
  split.
  { intros pad Hl. pose proof (onPadAdded_spec O element pad data w) as H.
    by rewrite Hl in H. }
  intros pad1 pad2. simpl.
  pose proof (onPadAdded_spec O element pad1 data w) as H1.
  destruct (sink_linked w data) eqn:Hl.
  { rewrite H1. simpl.
    pose proof (onPadAdded_spec O element pad2 data w) as H2. rewrite Hl in H2.
    rewrite H2. simpl. split_and!; [lia | lia | done]. }
  destruct H1 as (ok1 & -> & Hok1). simpl.
  destruct (engine_link O element (snd <$> pad1) data (Some "sink") NULL w)
    as [ok1' w1] eqn:He1. simpl in *. subst ok1'.
  apply engine_link_spec in He1 as (Hs1 & Hel1 & Ht1 & Hres1).
  pose proof (onPadAdded_spec O element pad2 data w1) as H2.
  destruct ok1.
  - destruct Hres1 as (_ & Hd & (l & Hlinks & _ & Hsink & _ & _ & Hpad) & _).
    assert (sink_linked w1 data = true) as Hl1.
    { unfold sink_linked. apply andb_true_iff. split.
      - apply is_element_true in Hd as [? ?]. apply is_element_true. by rewrite Hel1.
      - rewrite <- Hsink, <- (Hpad "sink" eq_refl). by eapply pad_linked_snoc. }
    rewrite Hl1 in H2. rewrite H2. simpl.
    rewrite Ht1, links_made_snoc, Hlinks, length_app. simpl. split_and!; [lia | lia | done].
  - assert (sink_linked w1 data = false) as Hl1.
    { unfold sink_linked in *. by rewrite Hres1. }
    rewrite Hl1 in H2. destruct H2 as (ok2 & -> & Hok2). simpl.
    destruct (engine_link O element (snd <$> pad2) data (Some "sink") NULL w1)
      as [ok2' w2] eqn:He2. simpl in *. subst ok2'.
    apply engine_link_spec in He2 as (Hs2 & Hel2 & Ht2 & Hres2).
    rewrite Ht2, Ht1, !links_made_snoc. split_and!.
    + destruct ok2; lia.
    + destruct ok2.
      * destruct Hres2 as (_ & _ & (l & -> & _) & _). rewrite length_app, Hres1. simpl. lia.
      * rewrite Hres2, Hres1. lia.
    + lia.
Qed.

(** ** [linkElement], call by call *)

Lemma linkElement_spec (O : Oracle) element caps child n1 n2 w ok w1 :
  linkElement O element caps child n1 n2 w = (ok, w1) →
  self w1 = self w ∧ gst_elements (gst w1) = gst_elements (gst w) ∧
  trace w1 = (trace w ++ link_events w element caps child ok)%list ∧
  if ok then
    is_element (gst w) element = true ∧ is_element (gst w) child = true ∧
    ∃ l, gst_links (gst w1) = (gst_links (gst w) ++ [l])%list ∧
         l_src l = element ∧ l_sink l = child ∧
         l_filter l = (if is_caps (gst w) caps then caps else NULL)
  else gst_links (gst w1) = gst_links (gst w).
Proof.
  unfold linkElement, link_events, GST_IS_ELEMENT, GST_IS_CAPS,
    gst_element_link_filtered, gst_element_link.
  unfold mbind at 1, M_bind at 1, gets at 1.
  destruct (is_element (gst w) element) eqn:He; simpl.
  2:{ intros [= <- <-]. rewrite app_nil_r. done. }
  unfold mbind at 1, M_bind at 1, gets at 1.
  destruct (is_element (gst w) child) eqn:Hc; simpl.
  2:{ intros [= <- <-]. rewrite app_nil_r. done. }
  unfold mbind at 1, M_bind at 1, gets at 1.
  destruct (is_caps (gst w) caps) eqn:Hcaps; simpl.
  - unfold mbind at 1, M_bind at 1.
    destruct (engine_link O element None child None caps w) as [linked w2] eqn:Hl.
    apply engine_link_spec in Hl as (Hs & Hel & Ht & Hres).
    destruct linked; simpl; unfold gst_caps_unref; unfold_M; intros [= <- <-]; simpl.
    + destruct Hres as (_ & _ & (l & Hlinks & Hsrc & Hsink & Hf & _) & _).
      split_and!; try done.
      * rewrite Ht, <- app_assoc. done.
      * exists l. done.
    + rewrite Hres. split_and!; try done. rewrite Ht, <- app_assoc. done.
  - unfold mbind at 1, M_bind at 1.
    destruct (engine_link O element None child None NULL w) as [linked w2] eqn:Hl.
    apply engine_link_spec in Hl as (Hs & Hel & Ht & Hres).
    destruct linked; simpl; unfold_M; intros [= <- <-]; simpl.
    + destruct Hres as (_ & _ & (l & Hlinks & Hsrc & Hsink & Hf & _) & _).
      split_and!; try done. exists l. done.
    + rewrite Hres. done.
Qed.

(** The link calls among the events of one [linkElement]. *)
Lemma link_attempts_link_events w element caps child ok :
  link_attempts (link_events w element caps child ok) =
  if is_element (gst w) element && is_element (gst w) child
  then [(element, child, ok)] else [].
Proof.
  unfold link_events.
  destruct (is_element (gst w) element && is_element (gst w) child); [|done].
  by destruct (is_caps (gst w) caps).
Qed.

(** A filter that is a caps is released once by each [linkElement] that
    reaches the link, whether the link was made or not. *)
Lemma linkElement_releases (O : Oracle) element caps child n1 n2 w :
  is_element (gst w) element = true → is_element (gst w) child = true →
  is_caps (gst w) caps = true →
  releases caps (trace (linkElement O element caps child n1 n2 w).2) =
  S (releases caps (trace w)).
Proof.
  intros He Hc Hcaps.
  destruct (linkElement O element caps child n1 n2 w) as [ok w1] eqn:Hl.
  simpl. apply linkElement_spec in Hl as (_ & _ & -> & _).
  unfold link_events. rewrite He, Hc, Hcaps. simpl.
  unfold releases. rewrite filter_app, length_app.
  rewrite filter_cons_False by done. rewrite filter_cons_True by done. simpl. lia.
Qed.

(** ** C3: [linkElementsByName] *)

Lemma endpoints_registry w1 w2 p :
  registry w1 = registry w2 → endpoints w1 p = endpoints w2 p.
Proof. unfold endpoints. by intros ->. Qed.

Lemma consecutive_cons2 x y rest :
  consecutive (x :: y :: rest) = (x, y) :: consecutive (y :: rest).
Proof. reflexivity. Qed.

Lemma linkElementsByName_prefix (O : Oracle) names :
  ∀ w r w', linkElementsByName O names w = (r, w') →
  ∃ done rest ends failed new, linked_prefix names w w' r done rest ends failed new.
Proof.
  induction names as [|x rest0 IH]; intros w r w' Hrun.
  { injection Hrun as <- <-. exists [], [], [], [], []. unfold linked_prefix. simpl.
    rewrite !app_nil_r. split_and!; done. }
  destruct rest0 as [|y rest0].
  { injection Hrun as <- <-. exists [], [], [], [], []. unfold linked_prefix. simpl.
    rewrite !app_nil_r. split_and!; done. }
  rewrite linkElementsByName_step in Hrun.
  unfold mbind at 1, M_bind at 1, gets at 1 in Hrun.
  unfold mbind at 1, M_bind at 1, gets at 1 in Hrun.
  destruct (m_pipeline_map (self w) !! x) as [parent_pair|] eqn:Hx.
  2:{ injection Hrun as <- <-. exists [], ((x, y) :: consecutive (y :: rest0)), [], [], [].
      unfold linked_prefix, pair_live, endpoints, registry. simpl. rewrite Hx, !app_nil_r.
      split_and!; done. }
  destruct (m_pipeline_map (self w) !! y) as [child_pair|] eqn:Hy.
  2:{ injection Hrun as <- <-. exists [], ((x, y) :: consecutive (y :: rest0)), [], [], [].
      unfold linked_prefix, pair_live, endpoints, registry. simpl.
      rewrite Hx, Hy, !app_nil_r. split_and!; done. }
  unfold mbind at 1, M_bind at 1 in Hrun.
  destruct (linkElement O parent_pair.1 parent_pair.2 child_pair.1 x y w)
    as [linked w1] eqn:Hlink.
  apply linkElement_spec in Hlink as (Hs & Hel & Ht & Hres).
  assert (endpoints w (x, y) = Some (parent_pair.1, child_pair.1)) as Hends.
  { unfold endpoints, registry. simpl. by rewrite Hx, Hy. }
  assert (registry w1 = registry w) as Hreg1 by (unfold registry; by rewrite Hs).
  assert (∀ p, endpoints w1 p = endpoints w p) as Hsame_ends.
  { intros p. by apply endpoints_registry. }
  assert (∀ p, pair_live w1 p = pair_live w p) as Hsame_live.
  { intros p. unfold pair_live, is_element. by rewrite Hsame_ends, Hel. }
  destruct linked; simpl in Hrun.
  - destruct Hres as (He & Hc & l & Hlinks & Hsrc & Hsink & _).
    apply IH in Hrun as (done & rest & ends & failed & new & Hpre).
    destruct Hpre as (Hcons & Hall & Hatt & Hnew & Hmap & Hreg & Hrest).
    exists ((x, y) :: done), rest, ((parent_pair.1, child_pair.1) :: ends), failed,
      (l :: new).
    unfold linked_prefix. split_and!.
    + rewrite consecutive_cons2, Hcons. done.
    + constructor.
      * split; [done|]. unfold pair_live. rewrite Hends. simpl. by rewrite He, Hc.
      * eapply Forall2_impl; [exact Hall|].
        intros p e. simpl. by rewrite Hsame_ends, Hsame_live.
    + rewrite Hatt, Ht, link_attempts_app, link_attempts_link_events, He, Hc. simpl.
      by rewrite <- app_assoc.
    + rewrite Hnew, Hlinks, <- app_assoc. done.
    + rewrite fmap_cons, Hmap, Hsrc, Hsink. done.
    + congruence.
    + destruct rest as [|p rest]; [done|]. by rewrite <- Hsame_ends, <- Hsame_live.
  - injection Hrun as <- <-.
    exists [], ((x, y) :: consecutive (y :: rest0)), [],
      (link_attempts (link_events w parent_pair.1 parent_pair.2 child_pair.1 false)), [].
    unfold linked_prefix. split_and!; try done.
    + by rewrite Ht, link_attempts_app.
    + by rewrite Hres, app_nil_r.
    + rewrite link_attempts_link_events. unfold pair_live. rewrite Hends. done.
Qed.

Lemma length_consecutive (names : list string) :
  length (consecutive names) = (length names - 1)%nat.
Proof.
  unfold consecutive. destruct names as [|x names]; [done|]. simpl.
  rewrite Nat.sub_0_r. revert x. induction names as [|y names IH]; intros x; [done|].
  simpl. by rewrite IH.
Qed.

Lemma forallb_snd_fmap_true (ends : list (N * N)) :
  forallb snd ((λ e, (e.1, e.2, true)) <$> ends) = true.
Proof. by induction ends. Qed.

(** C3: [linkElementsByName] walks the consecutive pairs of names in index
    order.  The pairs it completed ([done]) each got exactly one link
    attempt, which succeeded, between the two registered, live elements, in
    that order and with nothing in between.  It returns [true] when no pair
    is left, and [false] at the first pair ([rest]'s head) that fails, which
    it does in one of three ways: a lookup fails (no attempt), a handle is
    not live (no attempt), or the engine refuses the link (the one refused
    attempt is recorded).  The links present before and the links made for
    [done] are all still there afterwards, and nothing else was linked.
    So when every lookup and handle check passes and no attempt of the run
    is refused, the [N-1] links are all made and the result is [true]; and
    a result [false] comes with a pair whose lookup, handle check or link
    failed.  A sequence of fewer than two names returns [true] and leaves
    the world untouched. *)
Theorem linkElementsByName_spec (O : Oracle) (names : list string) (w : World) :
  let r := (linkElementsByName O names w).1 in
  let w' := (linkElementsByName O names w).2 in
  let attempts := attempts_from (length (link_attempts (trace w))) (trace w') in
  (∃ done rest ends failed new, linked_prefix names w w' r done rest ends failed new) ∧
  (forallb (pair_live w) (consecutive names) = true → forallb snd attempts = true →
   r = true ∧ length attempts = (length names - 1)%nat ∧
   length (gst_links (gst w')) = (length (gst_links (gst w)) + (length names - 1))%nat) ∧
  (r = false →
   ∃ p, p ∈ consecutive names ∧
        (pair_live w p = false ∨
         ∃ e, endpoints w p = Some e ∧ (e.1, e.2, false) ∈ attempts)) ∧
  ((length names ≤ 1)%nat → linkElementsByName O names w = (true, w)).
Proof.
  intros r w' attempts.
  destruct (linkElementsByName_prefix O names w r w')
    as (done & rest & ends & failed & new & Hpre).
  { subst r w'. by destruct (linkElementsByName O names w). }
  assert (attempts = (((λ e, (e.1, e.2, true)) <$> ends) ++ failed)%list) as Hattempts.
  { destruct Hpre as (_ & _ & Hatt & _). subst attempts. unfold attempts_from.
    by rewrite Hatt, drop_app_length. }
  split_and!.
  - by exists done, rest, ends, failed, new.
  - intros Hlive Hok.
    destruct Hpre as (Hcons & Hall & _ & Hnew & Hmap & _ & Hrest).
    destruct rest as [|p rest].
    + destruct Hrest as [-> ->]. rewrite app_nil_r in Hcons, Hattempts.
      assert (length ends = (length names - 1)%nat) as Hlen.
      { rewrite <- (Forall2_length _ _ _ Hall), <- Hcons. apply length_consecutive. }
      split_and!; [done | by rewrite Hattempts, length_fmap |].
      rewrite Hnew, length_app. f_equal.
      by rewrite <- Hlen, <- Hmap, length_fmap.
    + destruct Hrest as [_ Hfailed]. exfalso.
      rewrite Hcons, forallb_app in Hlive. simpl in Hlive.
      apply andb_true_iff in Hlive as [_ [Hp _]%andb_true_iff].
      rewrite Hp in Hfailed. unfold pair_live in Hp.
      destruct (endpoints w p) as [e|]; [|done].
      rewrite Hattempts, Hfailed, forallb_app in Hok. simpl in Hok.
      by apply andb_true_iff in Hok as [_ ?].
  - intros Hr. destruct Hpre as (Hcons & _ & _ & _ & _ & _ & Hrest).
    destruct rest as [|p rest]; [destruct Hrest; congruence|].
    destruct Hrest as [_ Hfailed].
    exists p. split; [rewrite Hcons; apply elem_of_app; right; by left|].
    destruct (pair_live w p) eqn:Hp; [right | by left].
    unfold pair_live in Hp. destruct (endpoints w p) as [e|]; [|done].
    exists e. split; [done|]. rewrite Hattempts, Hfailed.
    apply elem_of_app. right. by left.
  - intros Hlen. destruct names as [|x [|y rest']]; simpl in *; [done | done | lia].
Qed.

(** ** C8: what the registry holds *)

Global Instance keeps_stages_preorder : PreOrder keeps_stages.
Proof.
  split.
  - intros w. unfold keeps_stages. done.
  - intros w1 w2 w3 (Hs1 & Hp1 & Hl1) (Hs2 & Hp2 & Hl2).
    unfold keeps_stages. rewrite Hs1 in *. split_and!; [congruence | | auto].
    intros e Hn Hne Hsome. rewrite Hp2; auto. rewrite Hp1; auto.
Qed.

Lemma is_element_parents w p :
  is_element (gst w) p = true ↔ p ≠ NULL ∧ is_Some (parents w !! p).
Proof.
  rewrite is_element_true. unfold parents. rewrite lookup_fmap, fmap_is_Some. done.
Qed.

Lemma frame_keeps_stages w w' : frame w w' → keeps_stages w w'.
Proof.
  intros (Hs & Hp & _ & _). unfold keeps_stages. split_and!; [done | |].
  - intros. by rewrite Hp.
  - rewrite !is_element_parents. by rewrite Hp.
Qed.

Lemma registry_valid_keeps w w' :
  registry_valid w → keeps_stages w w' → registry_valid w'.
Proof.
  intros Hinv (Hs & Hp & Hl) n e c Hreg. unfold registry in *. rewrite Hs in *.
  destruct (Hinv n e c Hreg) as [(Hne & Hpipe & Hpar) Hnp].
  split; [|done]. unfold valid_stage. rewrite Hs. split_and!; auto.
  rewrite Hp; auto.
Qed.

Lemma keeps_stages_attachToBin (O : Oracle) w :
  keeps_stages w (attachToBin O w).2.
Proof.
  unfold attachToBin, gst_bin_new.
  unfold mbind at 1, M_bind at 1.
  destruct (gst_element_factory_make O "bin" None w) as [bin w1] eqn:Hmake.
  apply gst_element_factory_make_spec in Hmake as (Hs1 & _ & Hmake).
  unfold mbind at 1, M_bind at 1, gets at 1.
  unfold mbind at 1, M_bind at 1.
  destruct (gst_bin_add O bin (m_pipeline (self w1)) w1) as [added w2] eqn:Hadd.
  apply gst_bin_add_spec in Hadd as (Hs2 & _ & Hadd).
  rewrite Hs1 in *.
  assert (∀ e : N, is_Some (parents w !! e) → is_Some (gst_elements (gst w) !! e)) as Hlive.
  { intros e. unfold parents. by rewrite lookup_fmap, fmap_is_Some. }
  destruct Hadd as [(-> & Hg2) | (-> & Hne & Hbin & Hpipe & Hg2)]; simpl.
  - unfold gst_object_unref. unfold_M. simpl. unfold keeps_stages, parents. simpl.
    rewrite Hg2. split_and!; [congruence | |].
    + intros e Hn Hnp Hsome%Hlive. rewrite !lookup_fmap. f_equal.
      destruct Hmake as [(-> & _ & ->) | (-> & _ & ->)]; simpl.
      * rewrite lookup_delete_ne; [done | congruence].
      * rewrite delete_insert_eq. rewrite lookup_delete_ne; [done|].
        intros <-. destruct (fresh_addr_spec (gst w)) as (_ & Hf & _).
        rewrite Hf in Hsome. by destruct Hsome.
    + rewrite !is_element_true. intros [Hn Hsome]. split; [done|].
      destruct Hmake as [(-> & _ & ->) | (-> & _ & ->)]; simpl.
      * rewrite lookup_delete_ne; [done | congruence].
      * rewrite delete_insert_eq. rewrite lookup_delete_ne; [done|].
        intros Heq. destruct (fresh_addr_spec (gst w)) as (_ & Hf & _).
        rewrite <- Heq, Hf in Hsome. by destruct Hsome.
  - destruct Hmake as [(-> & _ & Hg1) | (-> & _ & Hg1)].
    { by apply is_element_true in Hbin as [? _]. }
    destruct (fresh_addr_spec (gst w)) as (_ & Hf & _).
    unfold keeps_stages, parents. rewrite Hg2, Hg1. simpl. split_and!; [congruence | |].
    + intros e Hn Hnp Hsome%Hlive. rewrite !lookup_fmap. f_equal.
      rewrite lookup_alter_ne by done. rewrite lookup_insert_ne; [done|].
      intros <-. rewrite Hf in Hsome. by destruct Hsome.
    + rewrite !is_element_true. intros [Hn Hsome]. split; [done|]. simpl.
      rewrite lookup_alter_eq, fmap_is_Some. rewrite lookup_insert_ne; [done|].
      intros Heq. rewrite <- Heq, Hf in Hsome. by destruct Hsome.
Qed.

Lemma registry_valid_stored w w2 r c n factory name :
  registry_valid w → self w2 = self w → r ≠ NULL →
  gst_elements (gst w) !! r = None →
  is_element (gst w) (m_pipeline (self w)) = true →
  gst_elements (gst w2) =
    <[r := mkElement factory name (m_pipeline (self w)) GST_STATE_NULL]>
      (gst_elements (gst w)) →
  registry_valid (stored n (r, c) w2).
Proof.
  intros Hinv Hs Hr Hfresh Hpipe Hel n' e c' Hreg.
  assert (r ≠ m_pipeline (self w)) as Hrp.
  { intros ->. apply is_element_true in Hpipe as [_ Hsome].
    rewrite Hfresh in Hsome. by destruct Hsome. }
  assert (is_element (gst w2) (m_pipeline (self w)) = true) as Hpipe2.
  { apply is_element_true in Hpipe as [Hn Hsome]. apply is_element_true.
    split; [done|]. rewrite Hel. by rewrite lookup_insert_ne. }
  unfold stored, registry, valid_stage, parents in *. simpl in *. rewrite Hs in *.
  destruct (decide (n = n')) as [<-|Hne].
  - rewrite lookup_insert_eq in Hreg. injection Hreg as <- <-.
    split_and!; try done. rewrite Hel, lookup_fmap, lookup_insert_eq. done.
  - rewrite lookup_insert_ne in Hreg by done.
    destruct (Hinv n' e c' Hreg) as [(He & _ & Hpar) Hep].
    split_and!; try done. rewrite Hel, lookup_fmap, lookup_insert_ne; [by rewrite <- lookup_fmap|].
    intros <-. unfold parents in Hpar. rewrite lookup_fmap, Hfresh in Hpar. done.
Qed.

Lemma registry_valid_same w w' :
  registry_valid w → self w' = self w → gst_elements (gst w') = gst_elements (gst w) →
  registry_valid w'.
Proof.
  intros Hinv Hs Hel n e c. unfold registry, valid_stage, parents, is_element.
  rewrite Hs, Hel. apply Hinv.
Qed.

Lemma registry_valid_addElement (O : Oracle) element name w :
  registry_valid w → registry_valid (addElement O element name w).2.
Proof.
  intros Hinv.
  destruct (createElement O element name (m_pipeline (self w)) w) as [r w1] eqn:Hc.
  rewrite (addElement_spec _ _ _ _ _ _ Hc).
  apply createElement_spec in Hc as (Hs & _ & Hc).
  destruct Hc as [(-> & Hg) | (Hr & Hfresh & _ & Hpipe & _ & Hg)]; simpl.
  - apply (registry_valid_same w); [done | done | by rewrite Hg].
  - rewrite bool_decide_eq_false_2 by done. simpl.
    eapply registry_valid_stored; eauto. by rewrite Hg.
Qed.

Lemma registry_valid_addElement_caps (O : Oracle) element name desc w :
  registry_valid w → registry_valid (addElement_caps O element name desc w).2.
Proof.
  intros Hinv.
  destruct (createElement O element name (m_pipeline (self w)) w) as [r w1] eqn:Hc.
  destruct (gst_caps_from_string O (c_str desc) w1) as [c w2] eqn:Hp.
  rewrite (addElement_caps_spec _ _ _ _ _ _ _ _ _ Hc Hp).
  apply createElement_spec in Hc as (Hs & _ & Hc).
  apply gst_caps_from_string_spec in Hp as (Hs2 & _ & Hp).
  assert (gst_elements (gst w2) = gst_elements (gst w1)) as Hel.
  { destruct Hp as [(_ & _ & ->) | (_ & _ & ->)]; done. }
  destruct (bool_decide (r = NULL) || bool_decide (c = NULL)) eqn:Hfail; simpl.
  - destruct Hc as [(-> & Hg) | (Hr & Hfresh & _ & Hpipe & _ & Hg)].
    + apply (registry_valid_same w); [done | congruence | by rewrite Hel, Hg].
    + eapply (registry_valid_keeps w); [done|].
      unfold keeps_stages, parents. rewrite Hs2, Hs. split_and!; [done | |].
      * intros e _ _ Hsome. rewrite Hel, Hg. simpl.
        rewrite !lookup_fmap in *. rewrite lookup_insert_ne; [done|].
        intros <-. rewrite Hfresh in Hsome. by destruct Hsome.
      * intros _. apply is_element_true in Hpipe as [Hn Hsome].
        apply is_element_true. split; [done|]. rewrite Hel, Hg. simpl.
        rewrite lookup_insert_ne; [done|].
        intros Heq. rewrite <- Heq, Hfresh in Hsome. by destruct Hsome.
  - apply orb_false_iff in Hfail as [Hr _]. apply bool_decide_eq_false in Hr.
    destruct Hc as [(-> & Hg) | (_ & Hfresh & _ & Hpipe & _ & Hg)]; [done|].
    eapply registry_valid_stored; eauto; [congruence|]. by rewrite Hel, Hg.
Qed.

(** The world an operation leaves. *)
Lemma step_world (O : Oracle) (o : op) (w : World) :
  (step O o w).2 =
  match o with
  | Op_addElement e n => (addElement O e n w).2
  | Op_addElement_caps e n c => (addElement_caps O e n c w).2
  | Op_linkElementsByName ns => (linkElementsByName O ns w).2
  | Op_setElementSignal n s cb d => (setElementSignal n s cb d w).2
  | Op_setElementProperty n k v => (setElementProperty n k v w).2
  | Op_getElementByName n => (getElementByName n w).2
  | Op_setElementState n st => (setElementState O n st w).2
  | Op_setPipelineState st => (setPipelineState O st w).2
  | Op_attachToBin => (attachToBin O w).2
  | Op_onPadAdded e p d => (onPadAdded O e p d w).2
  end.
Proof.
  destruct o; simpl; try done; unfold mbind at 1, M_bind at 1;
    match goal with |- context [let (_, _) := ?m in _] => by destruct m end.
Qed.

(** Every operation but the two creations keeps the stages. *)
Lemma keeps_stages_step (O : Oracle) (o : op) (w : World) :
  is_create o = false → keeps_stages w (step O o w).2.
Proof.
  intros Hnc. rewrite step_world. destruct o; try done;
    first
      [ apply keeps_stages_attachToBin
      | apply frame_keeps_stages;
        first [ apply frame_linkElementsByName | apply frame_setElementSignal
              | apply frame_setElementProperty | apply frame_getElementByName
              | apply frame_setElementState | apply frame_setPipelineState
              | apply frame_onPadAdded ] ].
Qed.

Lemma registry_valid_step (O : Oracle) (o : op) (w : World) :
  registry_valid w → registry_valid (step O o w).2.
Proof.
  intros Hinv. destruct (is_create o) eqn:Hc.
  - rewrite step_world. destruct o; try done.
    + by apply registry_valid_addElement.
    + by apply registry_valid_addElement_caps.
  - eapply registry_valid_keeps; [done|]. by apply keeps_stages_step.
Qed.

Lemma run_cons (O : Oracle) (o : op) (os : list op) (w : World) :
  (run O (o :: os) w).2 = (run O os (step O o w).2).2.
Proof. simpl. unfold mbind, M_bind. by destruct (step O o w). Qed.

Lemma registry_valid_run (O : Oracle) (os : list op) :
  ∀ w, registry_valid w → registry_valid (run O os w).2.
Proof.
  induction os as [|o os IH]; intros w Hinv; [done|].
  rewrite run_cons. by apply IH, registry_valid_step.
Qed.

Lemma new_GStreamPipeline_registry (O : Oracle) name init loop g :
  registry (new_GStreamPipeline O name init loop g) = ∅.
Proof.
  unfold new_GStreamPipeline, GStreamPipeline_ctor, gst_pipeline_new, gst_init,
    g_main_loop_new, gst_element_factory_make, registry.
  unfold_M. destruct init, loop; simpl; destruct (o_factory O "pipeline"); done.
Qed.

(** C8: after any sequence of operations on a freshly constructed graph,
    every element the registry holds is a valid stage (not [NULL], live, and
    a child of this graph's pipeline), so [getElementByName] returns either
    [NULL] or a valid stage. *)
Theorem registry_holds_valid_stages (O : Oracle) (pipeline_name : string)
    (init_gstream create_main_loop : bool) (g : Gst) (os : list op) :
  let w := (run O os (new_GStreamPipeline O pipeline_name init_gstream
                        create_main_loop g)).2 in
  (∀ name e c, registry w !! name = Some (e, c) → valid_stage w e) ∧
  (∀ name, (getElementByName name w).1 = NULL ∨
           valid_stage w (getElementByName name w).1).
Proof.
  simpl. set (w0 := new_GStreamPipeline _ _ _ _ _).
  assert (registry_valid (run O os w0).2) as Hinv.
  { apply registry_valid_run. intros n e c. subst w0.
    rewrite new_GStreamPipeline_registry. by rewrite lookup_empty. }
  split.
  - intros name e c Hreg. by destruct (Hinv name e c Hreg).
  - intros name. unfold getElementByName. unfold_M. simpl.
    destruct (m_pipeline_map (self (run O os w0).2) !! name) as [[e c]|] eqn:Hreg;
      [right | by left].
    by destruct (Hinv name e c Hreg).
Qed.

(** ** C6, C7: what creation writes into the registry *)

(** For the two-argument overload success is what the call returns. *)
Lemma addElement_true_iff (O : Oracle) element name w :
  (addElement O element name w).1 = true ↔
  is_Some (created_handle O (Create element name) w).
Proof.
  unfold created_handle. simpl.
  destruct (createElement O element name (m_pipeline (self w)) w) as [r w1] eqn:Hc.
  rewrite (addElement_spec _ _ _ _ _ _ Hc). simpl.
  destruct (bool_decide (r = NULL)); simpl; split; eauto; try done.
Qed.

Lemma do_create_registry (O : Oracle) c w h :
  created_handle O c w = Some h →
  h ≠ NULL ∧
  ∃ caps, registry (do_create O c w).2 = <[call_name c := (h, caps)]> (registry w).
Proof.
  unfold created_handle.
  destruct (createElement O (call_element c) (call_name c) (m_pipeline (self w)) w)
    as [r w1] eqn:Hc.
  destruct c as [e n | e n s]; simpl in *.
  - rewrite (addElement_spec _ _ _ _ _ _ Hc).
    apply createElement_spec in Hc as (Hs & _).
    destruct (bool_decide (r = NULL)) eqn:Hr; [done|]. intros [= <-].
    apply bool_decide_eq_false in Hr. split; [done|]. exists NULL.
    unfold stored, registry. simpl. by rewrite Hs.
  - destruct (gst_caps_from_string O (c_str s) w1) as [caps w2] eqn:Hp.
    rewrite (addElement_caps_spec _ _ _ _ _ _ _ _ _ Hc Hp). simpl.
    apply createElement_spec in Hc as (Hs & _).
    apply gst_caps_from_string_spec in Hp as (Hs2 & _).
    destruct (bool_decide (r = NULL) || bool_decide (caps = NULL)) eqn:Hr; [done|].
    intros [= <-]. apply orb_false_iff in Hr as [Hr _].
    apply bool_decide_eq_false in Hr. split; [done|]. exists caps.
    unfold stored, registry. simpl. by rewrite Hs2, Hs.
Qed.

Lemma run_registry (O : Oracle) (os : list op) :
  ∀ w, Forall (λ o, is_create o = false) os → registry (run O os w).2 = registry w.
Proof.
  induction os as [|o os IH]; intros w Hnc; [done|].
  apply Forall_cons in Hnc as [Ho Hos]. rewrite run_cons, IH by done.
  destruct (keeps_stages_step O o w Ho) as (Hs & _). unfold registry. by rewrite Hs.
Qed.

(** C10: linking a sequence, setting a property, connecting a signal,
    setting the state of an element and looking a name up all leave the
    registry mapping exactly as it was, for every argument and world; and so
    does every sequence of operations none of which is a creation. *)
Theorem only_create_mutates_registry (O : Oracle) (w : World) :
  (∀ names, registry (linkElementsByName O names w).2 = registry w) ∧
  (∀ name key v, registry (setElementProperty name key v w).2 = registry w) ∧
  (∀ name signal cb data,
      registry (setElementSignal name signal cb data w).2 = registry w) ∧
  (∀ name st, registry (setElementState O name st w).2 = registry w) ∧
  (∀ name, registry (getElementByName name w).2 = registry w) ∧
  (∀ os, forallb (λ o, negb (is_create o)) os = true →
         registry (run O os w).2 = registry w).
Proof.
  unfold registry. split_and!; intros.
  - by destruct (frame_linkElementsByName O names w) as [-> _].
  - by destruct (frame_setElementProperty name key v w) as [-> _].
  - by destruct (frame_setElementSignal name signal cb data w) as [-> _].
  - by destruct (frame_setElementState O name st w) as [-> _].
  - by destruct (frame_getElementByName name w) as [-> _].
  - apply (run_registry O os w). apply Forall_forall. intros o Hin.
    eapply forallb_forall in H; [| by apply list_elem_of_In].
    by apply negb_true_iff in H.
Qed.

Lemma run_creates_registry (O : Oracle) (cs : list create_call) :
  ∀ w hs w', run_creates O cs w = (hs, w') →
  Forall is_Some hs → NoDup (call_name <$> cs) →
  (∀ n, n ∉ call_name <$> cs → registry w' !! n = registry w !! n) ∧
  (∀ i c h, cs !! i = Some c → hs !! i = Some (Some h) →
            h ≠ NULL ∧ ∃ caps, registry w' !! call_name c = Some (h, caps)).
Proof.
  induction cs as [|c cs IH]; intros w hs w' Hrun Hall Hnd.
  { injection Hrun as <- <-. split; [done|]. intros i c h Hc. by destruct i. }
  simpl in Hrun.
  destruct (run_creates O cs (do_create O c w).2) as [hs1 w1] eqn:Hrest.
  injection Hrun as <- <-. simpl in *.
  apply Forall_cons in Hall as [[h0 Hh0] Hall].
  apply NoDup_cons in Hnd as [Hnotin Hnd].
  destruct (IH _ _ _ Hrest Hall Hnd) as [Hother Hlook].
  destruct (do_create_registry O c w h0 Hh0) as (Hh0n & caps0 & Hreg0).
  split.
  - intros n Hn. apply not_elem_of_cons in Hn as [Hne Hn].
    rewrite Hother, Hreg0 by done. by rewrite lookup_insert_ne.
  - intros [|i] c' h Hc Hh; simpl in *.
    + injection Hc as <-. rewrite Hh0 in Hh. injection Hh as <-.
      split; [done|]. exists caps0. rewrite Hother, Hreg0 by done.
      apply lookup_insert_eq.
    + eauto.
Qed.

Lemma getElementByName_lookup name w :
  getElementByName name w =
  (match registry w !! name with Some entry => entry.1 | None => NULL end, w).
Proof. reflexivity. Qed.

(** C6: after a sequence of successful creations under pairwise distinct
    names on an empty registry, followed by any operations that are not
    creations, looking up one of the names returns the (non-[NULL]) handle
    created under it, and looking up a name no creation used returns
    [NULL]. *)
Theorem lookup_after_creates (O : Oracle) (cs : list create_call) (os : list op)
    (w0 : World) :
  registry w0 = ∅ →
  NoDup (call_name <$> cs) →
  Forall is_Some (run_creates O cs w0).1 →
  Forall (λ o, is_create o = false) os →
  let w := (run O os (run_creates O cs w0).2).2 in
  (∀ i c h, cs !! i = Some c → (run_creates O cs w0).1 !! i = Some (Some h) →
            h ≠ NULL ∧ getElementByName (call_name c) w = (h, w)) ∧
  (∀ n, n ∉ call_name <$> cs → getElementByName n w = (NULL, w)).
Proof.
  intros Hempty Hnd Hall Hnc. simpl.
  destruct (run_creates O cs w0) as [hs w1] eqn:Hrun. simpl in *.
  destruct (run_creates_registry O cs w0 hs w1 Hrun Hall Hnd) as [Hother Hlook].
  split.
  - intros i c h Hc Hh. destruct (Hlook i c h Hc Hh) as (Hn & caps & Hreg).
    split; [done|]. rewrite getElementByName_lookup, run_registry, Hreg by done. done.
  - intros n Hn. rewrite getElementByName_lookup, run_registry, Hother by done.
    by rewrite Hempty, lookup_empty.
Qed.







(** ** C2: a filter presented twice *)

(** C2 (the code departs from the claim): the registry keeps the caps
    pointer after [linkElement] released it, so linking the same names again
    presents the same filter instance again.  On an engine that accepts both
    links both calls return [true], the filter (address 4) is released twice
    although the program owned one reference, and both links carry it.  On an
    engine that refuses the link the first call frees the filter and the
    registry is left with the dangling pointer. *)
Theorem linkElementsByName_twice_same_filter :
  let names := ["videoconvert"; "videosink"] in
  let first := linkElementsByName demo_engine names demo_built in
  let second := linkElementsByName demo_engine names first.2 in
  let refused := linkElementsByName demo_refusing names demo_built in
  (registry demo_built !! "videoconvert" = Some (3, 4) ∧
   gst_caps (gst demo_built) !! 4 = Some (mkCaps "video/x-raw, format=(string)I420" 1)) ∧
  (first.1 = true ∧ releases 4 (trace first.2) = 1%nat ∧
   registry first.2 !! "videoconvert" = Some (3, 4)) ∧
  (second.1 = true ∧ releases 4 (trace second.2) = 2%nat ∧
   l_filter <$> gst_links (gst second.2) = [4; 4]) ∧
  (refused.1 = false ∧ releases 4 (trace refused.2) = 1%nat ∧
   gst_caps (gst refused.2) !! 4 = None ∧
   registry refused.2 !! "videoconvert" = Some (3, 4)).
Proof. vm_compute. split_and!; done. Qed.

(** ** The statements at concrete inputs *)

(** C9 at ["missing"], which [demo_built] does not register. *)
Lemma setElementProperty_missing_witness :
  registry demo_built !! "missing" = None ∧
  setElementProperty "missing" "k" (GInt 0) demo_built = (false, demo_built).
Proof.
  split; [by vm_compute|].
  apply (setElementProperty_missing "missing" "k" (GInt 0) demo_built). by vm_compute.
Defined.

(** C5 at the linked video sink of [demo_linked]. *)
Lemma onPadAdded_links_at_most_once_witness :
  sink_linked demo_linked 5 = true ∧
  onPadAdded demo_engine 3 (Some (3, "src_0")) 5 demo_linked = (tt, demo_linked).
Proof.
  split; [by vm_compute|].
  apply (proj1 (onPadAdded_links_at_most_once demo_engine 3 5 demo_linked)).
  by vm_compute.
Defined.

(** C6 at the two creations of [demo_built], followed by a link and a
    property. *)
Lemma lookup_after_creates_witness :
  let cs := [CreateCaps "videoconvert" "videoconvert" "video/x-raw, format=(string)I420";
             Create "autovideosink" "videosink"] in
  let os := [Op_linkElementsByName ["videoconvert"; "videosink"];
             Op_setElementProperty "videosink" "sync" (GInt 0)] in
  let w := (run demo_engine os (run_creates demo_engine cs demo_start).2).2 in
  (run_creates demo_engine cs demo_start).1 = [Some 3; Some 5] ∧
  getElementByName "videoconvert" w = (3, w) ∧
  getElementByName "videosink" w = (5, w) ∧
  getElementByName "rtspsrc" w = (NULL, w).
Proof.
  intros cs os w.
  assert (registry demo_start = ∅) as H0 by (by vm_compute).
  assert (NoDup (call_name <$> cs)) as H1.
  { apply (bool_decide_unpack _). by vm_compute. }
  assert (Forall is_Some (run_creates demo_engine cs demo_start).1) as H2.
  { apply (bool_decide_unpack _). by vm_compute. }
  assert (Forall (λ o, is_create o = false) os) as H3.
  { repeat constructor. }
  destruct (lookup_after_creates demo_engine cs os demo_start H0 H1 H2 H3) as [Hin Hout].
  split_and!.
  - by vm_compute.
  - apply (Hin 0%nat (CreateCaps "videoconvert" "videoconvert"
                        "video/x-raw, format=(string)I420") 3); by vm_compute.
  - apply (Hin 1%nat (Create "autovideosink" "videosink") 5); by vm_compute.
  - apply (Hout "rtspsrc"). apply (bool_decide_unpack _). by vm_compute.
Defined.


(** C3 on the three last names of the chain of [runSimplePipeline]: two
    links are made; and at a single name, where nothing is attempted. *)
Lemma linkElementsByName_spec_witness :
  let names := ["videorate"; "videoconvert"; "videosink"] in
  let linked := linkElementsByName demo_engine names demo_tail in
  (forallb (pair_live demo_tail) (consecutive names) = true ∧
   linked.1 = true ∧
   length (attempts_from (length (link_attempts (trace demo_tail))) (trace linked.2))
     = 2%nat ∧
   length (gst_links (gst linked.2)) = (length (gst_links (gst demo_tail)) + 2)%nat) ∧
  linkElementsByName demo_engine ["videosink"] demo_tail = (true, demo_tail).
Proof.
  intros names linked. split.
  - split; [by vm_compute|].
    apply (proj1 (proj2 (linkElementsByName_spec demo_engine names demo_tail)));
      by vm_compute.
  - apply (proj2 (proj2 (proj2 (linkElementsByName_spec demo_engine ["videosink"]
                                    demo_tail)))).
    simpl. lia.
Defined.

(** C8 at the converter of [demo_linked], after a state change and the
    callback. *)
Lemma registry_holds_valid_stages_witness :
  let os := [Op_addElement_caps "videoconvert" "videoconvert"
               "video/x-raw, format=(string)I420";
             Op_addElement "autovideosink" "videosink";
             Op_addElement "nosuch" "ghost";
             Op_linkElementsByName ["videoconvert"; "videosink"];
             Op_setPipelineState GST_STATE_PLAYING;
             Op_onPadAdded 3 (Some (3, "src_0")) 5] in
  let w := (run demo_engine os
              (new_GStreamPipeline demo_engine "RTSP_SERVER" true true gst_empty)).2 in
  registry w !! "videoconvert" = Some (3, 4) ∧ valid_stage w 3 ∧
  registry w !! "ghost" = None.
Proof.
  intros os w. split_and!; [by vm_compute | | by vm_compute].
  apply (proj1 (registry_holds_valid_stages demo_engine "RTSP_SERVER" true true
                  gst_empty os) "videoconvert" 3 4).
  by vm_compute.
Defined.

(** C10 at a sequence with a link, a state change, [attachToBin] and the
    callback. *)
Lemma only_create_mutates_registry_witness :
  registry (run demo_engine
              [Op_linkElementsByName ["videoconvert"; "videosink"];
               Op_setPipelineState GST_STATE_PLAYING;
               Op_attachToBin;
               Op_onPadAdded 3 (Some (3, "src_0")) 5] demo_built).2 =
  registry demo_built.
Proof.
  apply (only_create_mutates_registry demo_engine demo_built). reflexivity.
Defined.

(** * Further properties of the code *)

(** ** Creation *)

(** X1: [createElement] is all or nothing.  It never touches the class
    members; when it returns [NULL] the engine is exactly as before (an
    element that could not be attached was released again), and with a
    [NULL] pipeline it does not even call the engine; when it returns an
    address, the address was free before and now holds an element whose
    parent is the (live) pipeline and whose plugin and name are the two
    strings as the engine reads them, up to their first NUL; no other object
    of the engine changed. *)
Theorem createElement_all_or_nothing (O : Oracle) (element name : string) (pipe : ptr)
    (w : World) :
  let r := (createElement O element name pipe w).1 in
  let w' := (createElement O element name pipe w).2 in
  self w' = self w ∧
  (pipe = NULL → r = NULL ∧ w' = w) ∧
  (r = NULL → gst w' = gst w) ∧
  (r ≠ NULL →
     is_element (gst w) pipe = true ∧ is_element (gst w) r = false ∧
     is_caps (gst w) r = false ∧
     gst_elements (gst w') !! r =
       Some (mkElement (c_str element) (Some (c_str name)) pipe GST_STATE_NULL) ∧
     o_factory O (c_str element) = true ∧
     (∀ p, p ≠ r → gst_elements (gst w') !! p = gst_elements (gst w) !! p) ∧
     gst_caps (gst w') = gst_caps (gst w) ∧ gst_links (gst w') = gst_links (gst w)).
Proof.
  simpl. destruct (createElement O element name pipe w) as [r w'] eqn:Hc. simpl.
  split_and!.
  - by apply createElement_spec in Hc as (? & _).
  - intros ->. unfold createElement in Hc. simpl in Hc. by injection Hc as <- <-.
  - intros ->. apply createElement_spec in Hc as (_ & _ & [(_ & ?) | (? & _)]); done.
  - intros Hr. apply createElement_spec in Hc as (_ & _ & [(? & _) | Hok]); [done|].
    destruct Hok as (_ & Hfresh & Hnocaps & Hpipe & Hfac & ->). simpl.
    split_and!; try done.
    + apply not_true_iff_false. rewrite is_element_true, Hfresh. by intros [_ [? ?]].
    + apply not_true_iff_false. rewrite is_caps_true, Hnocaps. by intros [_ [? ?]].
    + apply lookup_insert_eq.
    + intros p Hp. by rewrite lookup_insert_ne.
Qed.

(** X2: the two-argument [addElement] returns [true] exactly when it wrote
    the registry: the entry under [element_name] then holds a valid stage
    that did not exist before, with no caps, and every other entry is as it
    was.  When it returns [false] the class members and the engine are
    exactly as before. *)
Theorem addElement_outcome (O : Oracle) (element name : string) (w : World) :
  let b := (addElement O element name w).1 in
  let w' := (addElement O element name w).2 in
  if b then
    ∃ h, registry w' = <[name := (h, NULL)]> (registry w) ∧
         is_element (gst w) h = false ∧ valid_stage w' h ∧
         m_pipeline (self w') = m_pipeline (self w) ∧ m_loop (self w') = m_loop (self w)
  else self w' = self w ∧ gst w' = gst w.
Proof.
  simpl.
  destruct (createElement O element name (m_pipeline (self w)) w) as [r w1] eqn:Hc.
  rewrite (addElement_spec _ _ _ _ _ _ Hc).
  apply createElement_spec in Hc as (Hs & _ & Hc).
  destruct Hc as [(-> & Hg) | (Hr & Hfresh & _ & Hpipe & _ & Hg)]; simpl; [done|].
  rewrite bool_decide_eq_false_2 by done. simpl. exists r.
  unfold stored, registry, valid_stage, parents. simpl. rewrite Hs, Hg. simpl.
  split_and!; try done.
  - apply not_true_iff_false. rewrite is_element_true, Hfresh. by intros [_ [? ?]].
  - apply is_element_true in Hpipe as [Hn Hsome]. apply is_element_true.
    split; [done|]. simpl. rewrite lookup_insert_ne; [done|].
    intros Heq. rewrite <- Heq, Hfresh in Hsome. by destruct Hsome.
  - by rewrite lookup_fmap, lookup_insert_eq.
Qed.

(** X3: the three-argument [addElement] returns [false] for every input.
    It writes the registry exactly when [createElement] returned an element
    and the caps string, as the engine reads it, parsed: the entry under
    [element_name] is then that element with that caps, the element is a
    valid stage and the caps has the description read and one reference, and
    neither existed before.  In every other case, so whenever the plugin is
    unknown or the string does not parse, the registry is as before. *)
Theorem addElement_caps_outcome (O : Oracle) (element name desc : string) (w : World) :
  let w' := (addElement_caps O element name desc w).2 in
  let created := createElement O element name (m_pipeline (self w)) w in
  let caps := (gst_caps_from_string O (c_str desc) created.2).1 in
  (addElement_caps O element name desc w).1 = false ∧
  (caps ≠ NULL ↔ o_caps O (c_str desc) = true) ∧
  (created.1 ≠ NULL → o_factory O (c_str element) = true) ∧
  (created.1 = NULL ∨ caps = NULL → registry w' = registry w) ∧
  (created.1 ≠ NULL → caps ≠ NULL →
   registry w' = <[name := (created.1, caps)]> (registry w) ∧
   is_element (gst w) created.1 = false ∧ is_caps (gst w) caps = false ∧
   valid_stage w' created.1 ∧
   gst_caps (gst w') !! caps = Some (mkCaps (c_str desc) 1)).
Proof.
  simpl.
  destruct (createElement O element name (m_pipeline (self w)) w) as [r w1] eqn:Hc.
  simpl.
  destruct (gst_caps_from_string O (c_str desc) w1) as [c w2] eqn:Hp. simpl.
  rewrite (addElement_caps_spec _ _ _ _ _ _ _ _ _ Hc Hp).
  apply createElement_spec in Hc as (Hs & _ & Hc).
  apply gst_caps_from_string_spec in Hp as (Hs2 & _ & Hp).
  assert (registry w2 = registry w) as Hreg by (unfold registry; by rewrite Hs2, Hs).
  assert (c ≠ NULL ↔ o_caps O (c_str desc) = true) as Hparsed.
  { destruct Hp as [(-> & Hno & _) | (-> & Hyes & _)].
    - rewrite Hno. split; [done | discriminate].
    - destruct (fresh_addr_spec (gst w1)) as (Hn & _). done. }
  assert (r ≠ NULL → o_factory O (c_str element) = true) as Hmade.
  { destruct Hc as [(-> & _) | (_ & _ & _ & _ & Hfac & _)]; done. }
  destruct (bool_decide (r = NULL) || bool_decide (c = NULL)) eqn:Hfail; simpl.
  { apply orb_true_iff in Hfail. rewrite !bool_decide_eq_true in Hfail.
    split_and!; auto. intros Hr Hcn. by destruct Hfail. }
  apply orb_false_iff in Hfail as [Hr Hcn].
  apply bool_decide_eq_false in Hr. apply bool_decide_eq_false in Hcn.
  destruct Hc as [(-> & _) | (_ & Hfresh & Hnocaps & Hpipe & Hfac & Hg)]; [done|].
  destruct Hp as [(-> & _) | (Hc & Hcaps & Hg2)]; [done|].
  split_and!; [done | done | done | intros [?|?]; congruence |]. intros _ _.
  assert (c ≠ r) as Hcr.
  { rewrite Hc, Hg. intros Heq.
    destruct (fresh_addr_spec (with_elements
      <[r := mkElement (c_str element) (Some (c_str name)) (m_pipeline (self w))
              GST_STATE_NULL]>
      (gst w))) as (_ & Hf & _).
    rewrite Heq in Hf. simpl in Hf. by rewrite lookup_insert_eq in Hf. }
  unfold stored, valid_stage, parents. simpl. rewrite Hreg, Hs2, Hs, Hg2, Hg. simpl.
  split_and!; try done.
  - apply not_true_iff_false. rewrite is_element_true, Hfresh. by intros [_ [? ?]].
  - apply not_true_iff_false. rewrite is_caps_true. intros [_ Hsome].
    destruct (fresh_addr_spec (gst w1)) as (_ & _ & Hf & _).
    rewrite <- Hc, Hg in Hf. simpl in Hf. rewrite Hf in Hsome. by destruct Hsome.
  - apply is_element_true in Hpipe as [Hn Hsome]. apply is_element_true.
    split; [done|]. simpl. rewrite lookup_insert_ne; [done|].
    intros Heq. rewrite <- Heq, Hfresh in Hsome. by destruct Hsome.
  - by rewrite lookup_fmap, lookup_insert_eq.
  - apply lookup_insert_eq.
Qed.

(** ** Linking *)

Lemma releases_app c t1 t2 :
  releases c (t1 ++ t2) = (releases c t1 + releases c t2)%nat.
Proof. unfold releases. by rewrite filter_app, length_app. Qed.

(** X4: one call of [linkElement] releases [caps] exactly once when both
    handles are live elements and [caps] is a caps, whatever the link's
    outcome, and never otherwise; it releases no other caps. *)
Theorem linkElement_release_count (O : Oracle) (element caps child : ptr)
    (n1 n2 : string) (w : World) (c : ptr) :
  releases c (trace (linkElement O element caps child n1 n2 w).2) =
  (releases c (trace w) +
   if bool_decide (c = caps) && is_element (gst w) element && is_element (gst w) child
      && is_caps (gst w) caps
   then 1 else 0)%nat.
Proof.
  destruct (linkElement O element caps child n1 n2 w) as [ok w1] eqn:Hl. simpl.
  apply linkElement_spec in Hl as (_ & _ & -> & _). rewrite releases_app. f_equal.
  unfold link_events, releases.
  destruct (is_element (gst w) element), (is_element (gst w) child); simpl;
    rewrite ?andb_false_r; try done.
  destruct (is_caps (gst w) caps); simpl; rewrite ?andb_false_r, ?andb_true_r.
  - rewrite filter_cons_False by done.
    destruct (decide (c = caps)) as [->|Hne].
    + rewrite filter_cons_True by done. by rewrite bool_decide_eq_true_2.
    + rewrite filter_cons_False by congruence. by rewrite bool_decide_eq_false_2.
  - done.
Qed.

(** X5: [linkElement] answers [false] without calling the engine when one
    of the two handles is not a live element.  It answers [true] exactly
    when the engine gained one link, from [element] to [child], carrying the
    caps when it is one and no filter otherwise; on [false] the links are as
    before.  The class members and the engine's elements never change. *)
Theorem linkElement_outcome (O : Oracle) (element caps child : ptr) (n1 n2 : string)
    (w : World) :
  let b := (linkElement O element caps child n1 n2 w).1 in
  let w' := (linkElement O element caps child n1 n2 w).2 in
  self w' = self w ∧ gst_elements (gst w') = gst_elements (gst w) ∧
  (is_element (gst w) element && is_element (gst w) child = false →
   b = false ∧ w' = w) ∧
  (if b then
     ∃ l, gst_links (gst w') = (gst_links (gst w) ++ [l])%list ∧
          l_src l = element ∧ l_sink l = child ∧
          l_filter l = (if is_caps (gst w) caps then caps else NULL)
   else gst_links (gst w') = gst_links (gst w)).
Proof.
  simpl. destruct (linkElement O element caps child n1 n2 w) as [ok w1] eqn:Hl. simpl.
  split_and!.
  - by apply linkElement_spec in Hl as (? & _).
  - by apply linkElement_spec in Hl as (_ & ? & _).
  - intros Hdead. unfold linkElement, GST_IS_ELEMENT in Hl. unfold_M.
    destruct (is_element (gst w) element); simpl in *.
    + rewrite Hdead in Hl. simpl in Hl. by injection Hl as <- <-.
    + by injection Hl as <- <-.
  - apply linkElement_spec in Hl as (_ & _ & _ & Hres). destruct ok; [|done].
    by destruct Hres as (_ & _ & Hl).
Qed.

(** X6: when a list of two or more names contains a name that is not
    registered, [linkElementsByName] returns [false]. *)
Theorem linkElementsByName_unregistered (O : Oracle) (names : list string)
    (name : string) (w : World) :
  (2 ≤ length names)%nat → name ∈ names → registry w !! name = None →
  (linkElementsByName O names w).1 = false.
Proof.
  revert w. induction names as [|x rest IH]; intros w Hlen Hin Hnone; [by inversion Hin|].
  destruct rest as [|y rest]; [simpl in Hlen; lia|].
  rewrite linkElementsByName_step. unfold mbind at 1, M_bind at 1, gets at 1.
  unfold mbind at 1, M_bind at 1, gets at 1.
  destruct (m_pipeline_map (self w) !! x) as [pp|] eqn:Hx; [|done].
  destruct (m_pipeline_map (self w) !! y) as [cp|] eqn:Hy; [|done].
  unfold mbind at 1, M_bind at 1.
  destruct (linkElement O pp.1 pp.2 cp.1 x y w) as [linked w1] eqn:Hl.
  destruct linked; simpl; [|done].
  apply linkElement_spec in Hl as (Hs & _).
  apply elem_of_cons in Hin as [->|Hin]; [unfold registry in Hnone; congruence|].
  destruct rest as [|z rest].
  { apply list_elem_of_singleton in Hin as ->. unfold registry in Hnone. congruence. }
  apply IH; [simpl; lia | done | unfold registry; by rewrite Hs].
Qed.

(** X6 on [demo_built], for a chain that names a stage nobody created. *)
Lemma linkElementsByName_unregistered_witness :
  registry demo_built !! "missing" = None ∧
  (linkElementsByName demo_engine ["videoconvert"; "missing"] demo_built).1 = false.
Proof.
  split; [by vm_compute|].
  apply (linkElementsByName_unregistered demo_engine ["videoconvert"; "missing"]
           "missing" demo_built).
  - simpl. lia.
  - apply (bool_decide_unpack _). by vm_compute.
  - by vm_compute.
Defined.

(** ** The constructor *)

(** The flag [init_gstream] puts the call of [gst_init] in front of what the
    constructor does without it. *)
Lemma new_GStreamPipeline_init (O : Oracle) (pipeline_name : string)
    (init_gstream create_main_loop : bool) (g : Gst) :
  let w := new_GStreamPipeline O pipeline_name init_gstream create_main_loop g in
  let w0 := new_GStreamPipeline O pipeline_name false create_main_loop g in
  self w = self w0 ∧ gst w = gst w0 ∧
  trace w = ((if init_gstream then [Ev_init] else []) ++ trace w0)%list.
Proof.
  unfold new_GStreamPipeline, GStreamPipeline_ctor, gst_pipeline_new, gst_init,
    g_main_loop_new, gst_element_factory_make.
  unfold_M.
  destruct init_gstream, create_main_loop; simpl;
    destruct (o_factory O "pipeline"); done.
Qed.

(** X7: right after construction the registry is empty; [m_loop] is [NULL]
    exactly when no main loop was asked for; [m_pipeline] is [NULL] exactly
    when the engine has no ["pipeline"] factory, and otherwise it is a new
    element of that factory, named by [pipeline_name] up to its first NUL,
    with no parent and state [GST_STATE_NULL], at an address different from
    the loop's; every element and caps the engine had is still there, and
    nothing was linked.  [gst_init] is called exactly when [init_gstream] is
    set, once, and then before any other call to the engine. *)
Theorem new_GStreamPipeline_outcome (O : Oracle) (pipeline_name : string)
    (init_gstream create_main_loop : bool) (g : Gst) :
  let w := new_GStreamPipeline O pipeline_name init_gstream create_main_loop g in
  registry w = ∅ ∧
  (m_loop (self w) = NULL ↔ create_main_loop = false) ∧
  (m_pipeline (self w) = NULL ↔ o_factory O "pipeline" = false) ∧
  (m_pipeline (self w) ≠ NULL →
     m_pipeline (self w) ≠ m_loop (self w) ∧
     gst_elements g !! m_pipeline (self w) = None ∧
     gst_elements (gst w) !! m_pipeline (self w) =
       Some (mkElement "pipeline" (Some (c_str pipeline_name)) NULL GST_STATE_NULL)) ∧
  (∀ p, is_Some (gst_elements g !! p) →
        gst_elements (gst w) !! p = gst_elements g !! p) ∧
  gst_caps (gst w) = gst_caps g ∧ gst_links (gst w) = gst_links g ∧
  inits (trace w) = (if init_gstream then 1 else 0)%nat ∧
  (init_gstream = true → head (trace w) = Some Ev_init).
Proof.
  intros w.
  destruct (new_GStreamPipeline_init O pipeline_name init_gstream create_main_loop g)
    as (Hself & Hgst & Htrace).
  fold w in Hself, Hgst, Htrace. unfold registry. rewrite Hself, Hgst, Htrace.
  clear Hself Hgst Htrace w.
  assert (∀ t, inits ((if init_gstream then [Ev_init] else []) ++ t) =
               ((if init_gstream then 1 else 0) + inits t)%nat) as Hinits.
  { intros t. unfold inits. rewrite filter_app, length_app. by destruct init_gstream. }
  rewrite Hinits. clear Hinits.
  unfold new_GStreamPipeline, GStreamPipeline_ctor, gst_pipeline_new, g_main_loop_new,
    gst_element_factory_make, inits.
  unfold_M. destruct create_main_loop; simpl.
  - set (g1 := with_loops _ g).
    destruct (fresh_addr_spec g) as (Hn0 & _).
    destruct (fresh_addr_spec g1) as (Hn1 & He1 & _ & Hl1).
    destruct (o_factory O "pipeline"); simpl.
    + split_and!; try done.
      * intros _. split_and!; [| done | apply lookup_insert_eq].
        intros Heq. apply Hl1. rewrite Heq. subst g1. simpl. set_solver.
      * intros p [x Hp]. rewrite lookup_insert_ne; [done|].
        intros <-. subst g1. simpl in He1. congruence.
      * by intros ->.
    + split_and!; try done. by intros ->.
  - destruct (fresh_addr_spec g) as (Hn0 & He0 & _).
    destruct (o_factory O "pipeline"); simpl.
    + split_and!; try done.
      * intros _. split_and!; [done | done | apply lookup_insert_eq].
      * intros p [x Hp]. rewrite lookup_insert_ne; [done|]. intros <-. congruence.
      * by intros ->.
    + split_and!; try done. by intros ->.
Qed.

(** ** What holds in every reachable world *)

Lemma reachable_registry_valid (O : Oracle) w : reachable O w → registry_valid w.
Proof.
  intros (name & init & loop & g & os & ->). apply registry_valid_run.
  intros n e c. rewrite new_GStreamPipeline_registry. by rewrite lookup_empty.
Qed.

(** A registered element of a reachable world is a live element. *)
Lemma reachable_registered_live (O : Oracle) w n e c :
  reachable O w → registry w !! n = Some (e, c) → is_element (gst w) e = true.
Proof.
  intros Hr Hreg. destruct (reachable_registry_valid O w Hr n e c Hreg) as [(Hn & _ & Hp) _].
  apply is_element_parents. split; [done|]. rewrite Hp. eauto.
Qed.

(** What a creation does to the registry, read as an operation. *)
Lemma step_create_registry (O : Oracle) (o : op) (w : World) (n : string) :
  created_name o = Some n →
  m_pipeline (self (step O o w).2) = m_pipeline (self w) ∧
  (is_element (gst w) (m_pipeline (self w)) = true →
   is_element (gst (step O o w).2) (m_pipeline (self w)) = true) ∧
  (registry (step O o w).2 = registry w ∨
   ∃ h c, registry (step O o w).2 = <[n := (h, c)]> (registry w) ∧
          is_element (gst w) h = false).
Proof.
  intros Hcreate. rewrite step_world.
  assert (∀ r factory name g,
            gst_elements g !! r = None →
            is_element g (m_pipeline (self w)) = true →
            is_element (with_elements <[r := mkElement factory name
              (m_pipeline (self w)) GST_STATE_NULL]> g) (m_pipeline (self w)) = true)
    as Hkeep.
  { intros r factory name g Hfresh [Hn Hsome]%is_element_true.
    apply is_element_true. split; [done|]. simpl. rewrite lookup_insert_ne; [done|].
    intros Heq. rewrite <- Heq, Hfresh in Hsome. by destruct Hsome. }
  assert (∀ g r, gst_elements g !! r = None → is_element g r = false) as Hdead.
  { intros g r Hfresh. apply not_true_iff_false. rewrite is_element_true, Hfresh.
    by intros [_ [? ?]]. }
  destruct o as [e m | e m d | | | | | | | |]; simpl in Hcreate; try done;
    injection Hcreate as ->.
  - destruct (createElement O e n (m_pipeline (self w)) w) as [r w1] eqn:Hc.
    rewrite (addElement_spec _ _ _ _ _ _ Hc).
    apply createElement_spec in Hc as (Hs & _ & Hc).
    destruct Hc as [(-> & Hg) | (Hr & Hfresh & _ & Hpipe & _ & Hg)]; simpl.
    + rewrite Hs, Hg. unfold registry. rewrite Hs. auto.
    + rewrite bool_decide_eq_false_2 by done. simpl. rewrite Hs, Hg.
      split_and!; [done | auto |]. right. exists r, NULL.
      unfold stored, registry. simpl. rewrite Hs. auto.
  - destruct (createElement O e n (m_pipeline (self w)) w) as [r w1] eqn:Hc.
    destruct (gst_caps_from_string O (c_str d) w1) as [c w2] eqn:Hp.
    rewrite (addElement_caps_spec _ _ _ _ _ _ _ _ _ Hc Hp).
    apply createElement_spec in Hc as (Hs & _ & Hc).
    apply gst_caps_from_string_spec in Hp as (Hs2 & _ & Hp).
    assert (gst_elements (gst w2) = gst_elements (gst w1)) as Hel.
    { destruct Hp as [(_ & _ & ->) | (_ & _ & ->)]; done. }
    assert (∀ p, is_element (gst w2) p = is_element (gst w1) p) as Hel'.
    { intros p. unfold is_element. by rewrite Hel. }
    destruct (bool_decide (r = NULL) || bool_decide (c = NULL)) eqn:Hfail; simpl;
      rewrite ?Hel', Hs2, Hs.
    + split_and!; [done | | left; unfold registry; by rewrite Hs2, Hs].
      destruct Hc as [(_ & ->) | (_ & Hfresh & _ & _ & _ & ->)]; auto.
    + apply orb_false_iff in Hfail as [Hr _]. apply bool_decide_eq_false in Hr.
      destruct Hc as [(-> & _) | (_ & Hfresh & _ & _ & _ & Hg)]; [done|].
      rewrite Hg. split_and!; [done | auto |]. right. exists r, c.
      unfold stored, registry. simpl. rewrite Hs2, Hs. auto.
Qed.

(** The pipeline of a reachable world is [NULL] or a live element. *)
Lemma reachable_pipeline (O : Oracle) w :
  reachable O w →
  m_pipeline (self w) = NULL ∨ is_element (gst w) (m_pipeline (self w)) = true.
Proof.
  intros (name & init & loop & g & os & ->).
  set (w0 := new_GStreamPipeline O name init loop g).
  assert (m_pipeline (self w0) = NULL ∨ is_element (gst w0) (m_pipeline (self w0)) = true)
    as H0.
  { destruct (new_GStreamPipeline_init O name init loop g) as (Hs & Hg & _).
    subst w0. rewrite Hs, Hg.
    unfold new_GStreamPipeline, GStreamPipeline_ctor, gst_pipeline_new,
      g_main_loop_new, gst_element_factory_make.
    unfold_M. destruct loop; simpl; destruct (o_factory O "pipeline"); simpl; auto;
      right; apply is_element_true; simpl; rewrite lookup_insert_eq;
      (split; [|eauto]).
    - by destruct (fresh_addr_spec (with_loops (λ s, {[fresh_addr g]} ∪ s) g)).
    - by destruct (fresh_addr_spec g). }
  clearbody w0. revert w0 H0. induction os as [|o os IH]; intros w0 H0; [done|].
  rewrite run_cons. apply IH.
  destruct (created_name o) as [n|] eqn:Hcn.
  - destruct (step_create_registry O o w0 n Hcn) as (Hp & Hlive & _).
    rewrite Hp. destruct H0; auto.
  - assert (is_create o = false) as Hnc by (by destruct o).
    destruct (keeps_stages_step O o w0 Hnc) as (Hs & _ & Hlive).
    rewrite Hs. destruct H0; auto.
Qed.

(** ** The registry over sequences of operations *)

Lemma run_registry_frame (O : Oracle) (os : list op) (w : World) (n : string) :
  (n ∉ omap created_name os → registry (run O os w).2 !! n = registry w !! n) ∧
  (is_Some (registry w !! n) → is_Some (registry (run O os w).2 !! n)).
Proof.
  revert w. induction os as [|o os IH]; intros w; [done|].
  rewrite run_cons. destruct (IH (step O o w).2) as [IH1 IH2].
  destruct (created_name o) as [m|] eqn:Hcn.
  - destruct (step_create_registry O o w m Hcn) as (_ & _ & Hreg). split.
    + intros Hnot. simpl in Hnot. rewrite Hcn in Hnot.
      apply not_elem_of_cons in Hnot as [Hne Hnot]. rewrite IH1 by done.
      destruct Hreg as [-> | (h & c & -> & _)]; [done|]. by rewrite lookup_insert_ne.
    + intros Hsome. apply IH2.
      destruct Hreg as [-> | (h & c & -> & _)]; [done|].
      destruct (decide (m = n)) as [->|Hne]; [rewrite lookup_insert_eq; eauto|].
      by rewrite lookup_insert_ne.
  - assert (is_create o = false) as Hnc by (by destruct o).
    destruct (keeps_stages_step O o w Hnc) as (Hs & _).
    assert (registry (step O o w).2 = registry w) as Hreg by (unfold registry; by rewrite Hs).
    split.
    + intros Hnot. simpl in Hnot. rewrite Hcn in Hnot. rewrite IH1 by done. by rewrite Hreg.
    + intros Hsome. apply IH2. by rewrite Hreg.
Qed.

(** X8: over any sequence of operations an entry of the registry changes
    only by a creation under its own name, and no name ever leaves the
    registry; so a name that is registered afterwards was registered before
    or was the name of one of the creations. *)
Theorem registry_changes_only_by_creation (O : Oracle) (os : list op) (w : World)
    (n : string) :
  (n ∉ omap created_name os → registry (run O os w).2 !! n = registry w !! n) ∧
  (is_Some (registry w !! n) → is_Some (registry (run O os w).2 !! n)) ∧
  (is_Some (registry (run O os w).2 !! n) →
   is_Some (registry w !! n) ∨ n ∈ omap created_name os).
Proof.
  destruct (run_registry_frame O os w n) as [Hother Hstay]. split_and!; [done | done |].
  intros Hsome. destruct (decide (n ∈ omap created_name os)) as [|Hnot]; [by right|].
  left. by rewrite <- Hother.
Qed.

Lemma registry_injective_step (O : Oracle) (o : op) (w : World) :
  registry_valid w → registry_injective w → registry_injective (step O o w).2.
Proof.
  intros Hvalid Hinj.
  destruct (created_name o) as [m|] eqn:Hcn.
  - destruct (step_create_registry O o w m Hcn) as (_ & _ & Hreg).
    destruct Hreg as [Hreg | (h & c & Hreg & Hdead)].
    { unfold registry_injective. by rewrite Hreg. }
    assert (∀ n c', registry w !! n ≠ Some (h, c')) as Hnew.
    { intros n c' Hreg'. destruct (Hvalid n h c' Hreg') as [(Hn & _ & Hp) _].
      assert (is_element (gst w) h = true) as Hlive; [|congruence].
      apply is_element_parents. split; [done|]. rewrite Hp. eauto. }
    intros n1 n2 e c1 c2. rewrite Hreg.
    destruct (decide (m = n1)) as [<-|H1], (decide (m = n2)) as [<-|H2]; [done | | |].
    + rewrite lookup_insert_eq, lookup_insert_ne by done.
      intros [= <- <-] Hreg'. by destruct (Hnew n2 c2).
    + rewrite lookup_insert_eq, lookup_insert_ne by done.
      intros Hreg' [= <- <-]. by destruct (Hnew n1 c1).
    + rewrite !lookup_insert_ne by done. apply Hinj.
  - assert (is_create o = false) as Hnc by (by destruct o).
    destruct (keeps_stages_step O o w Hnc) as (Hs & _).
    unfold registry_injective, registry. by rewrite Hs.
Qed.

Lemma reachable_registry_injective (O : Oracle) w :
  reachable O w → registry_injective w.
Proof.
  intros (name & init & loop & g & os & ->).
  set (w0 := new_GStreamPipeline O name init loop g).
  assert (registry_valid w0 ∧ registry_injective w0) as H0.
  { split; intros ?; intros *; subst w0; rewrite new_GStreamPipeline_registry;
      by rewrite lookup_empty. }
  clearbody w0. revert w0 H0.
  induction os as [|o os IH]; intros w0 [Hv Hi]; [apply Hi|].
  rewrite run_cons. apply IH. split.
  - by apply registry_valid_step.
  - by apply registry_injective_step.
Qed.


Lemma demo_built_reachable : reachable demo_engine demo_built.
Proof.
  exists "RTSP_SERVER", true, true, gst_empty,
    [Op_addElement_caps "videoconvert" "videoconvert" "video/x-raw, format=(string)I420";
     Op_addElement "autovideosink" "videosink"].
  reflexivity.
Qed.

(** X9: in a reachable world two names never share an element: every
    creation registers an address no live element had, and registered
    elements stay live. *)
Theorem registry_handles_distinct (O : Oracle) (w : World) (n1 n2 : string)
    (e c1 c2 : N) :
  reachable O w →
  registry w !! n1 = Some (e, c1) → registry w !! n2 = Some (e, c2) → n1 = n2.
Proof. intros Hr. apply (reachable_registry_injective O w Hr). Qed.

(** X9 on [demo_built], where the element 3 is registered as
    ["videoconvert"]. *)
Lemma registry_handles_distinct_witness :
  registry demo_built !! "videoconvert" = Some (3, 4) ∧
  "videoconvert" = "videoconvert".
Proof.
  split; [by vm_compute|].
  apply (registry_handles_distinct demo_engine demo_built "videoconvert"
           "videoconvert" 3 4 4).
  - exact demo_built_reachable.
  - by vm_compute.
  - by vm_compute.
Defined.

(** X10: in a reachable world [getElementByName] returns [NULL] exactly for
    the names that are not registered, and never changes the world. *)
Theorem getElementByName_null_iff_unregistered (O : Oracle) (w : World) (n : string) :
  reachable O w →
  ((getElementByName n w).1 = NULL ↔ registry w !! n = None) ∧
  (getElementByName n w).2 = w.
Proof.
  intros Hr. rewrite getElementByName_lookup. simpl. split; [|done].
  destruct (registry w !! n) as [[e c]|] eqn:Hreg; [|done]. simpl.
  destruct (reachable_registry_valid O w Hr n e c Hreg) as [(Hn & _) _].
  split; [done | discriminate].
Qed.

(** X10 on [demo_built], for a name that is not registered. *)
Lemma getElementByName_null_iff_unregistered_witness :
  ((getElementByName "missing" demo_built).1 = NULL ↔
   registry demo_built !! "missing" = None) ∧
  (getElementByName "missing" demo_built).2 = demo_built.
Proof.
  apply (getElementByName_null_iff_unregistered demo_engine demo_built "missing").
  exact demo_built_reachable.
Defined.

(** ** Configuration by name *)

(** X11: in a reachable world [setElementProperty] returns [true] exactly
    for the registered names.  It then records the one property, under the
    property name as the engine reads it (up to its first NUL), on the
    element registered under the name and changes nothing else of the
    engine or the class; when it returns [false] the world is untouched. *)
Theorem setElementProperty_reachable (O : Oracle) (w : World) (n k : string)
    (v : gvalue) :
  reachable O w →
  let b := (setElementProperty n k v w).1 in
  let w' := (setElementProperty n k v w).2 in
  (b = true ↔ is_Some (registry w !! n)) ∧
  (b = false → w' = w) ∧
  (∀ e c, registry w !! n = Some (e, c) →
          self w' = self w ∧
          gst w' = with_props (λ ps, (ps ++ [(e, c_str k, v)])%list) (gst w) ∧
          trace w' = (trace w ++ [Ev_object_set e (c_str k) v])%list).
Proof.
  intros Hr. simpl. unfold setElementProperty, GST_IS_ELEMENT, g_object_set. unfold_M.
  fold (registry w). destruct (registry w !! n) as [[e c]|] eqn:Hreg; simpl.
  - rewrite (reachable_registered_live O w n e c Hr Hreg). simpl.
    split_and!; [split; eauto | done |]. by intros ? ? [= <- <-].
  - split_and!; [split; [done | by intros [? ?]] | done | done].
Qed.

(** X11 on [demo_built]: the sink's [sync] property. *)
Lemma setElementProperty_reachable_witness :
  let b := (setElementProperty "videosink" "sync" (GInt 0) demo_built).1 in
  let w' := (setElementProperty "videosink" "sync" (GInt 0) demo_built).2 in
  (b = true ↔ is_Some (registry demo_built !! "videosink")) ∧
  (b = false → w' = demo_built) ∧
  (∀ e c, registry demo_built !! "videosink" = Some (e, c) →
          self w' = self demo_built ∧
          gst w' = with_props (λ ps, (ps ++ [(e, "sync", GInt 0)])%list) (gst demo_built) ∧
          trace w' = (trace demo_built ++ [Ev_object_set e "sync" (GInt 0)])%list).
Proof.
  apply (setElementProperty_reachable demo_engine demo_built "videosink" "sync" (GInt 0)).
  exact demo_built_reachable.
Defined.

(** X12: in a reachable world [setElementSignal] returns [true] exactly for
    the registered names.  It then connects the one handler, with the signal
    name as the engine reads it (up to its first NUL) and the given callback
    and user data, to the element registered under the name and changes
    nothing else; when it returns [false] the world is untouched. *)
Theorem setElementSignal_reachable (O : Oracle) (w : World) (n signal : string)
    (cb : GCallback) (data : ptr) :
  reachable O w →
  let b := (setElementSignal n signal cb data w).1 in
  let w' := (setElementSignal n signal cb data w).2 in
  (b = true ↔ is_Some (registry w !! n)) ∧
  (b = false → w' = w) ∧
  (∀ e c, registry w !! n = Some (e, c) →
          self w' = self w ∧
          gst w' = with_handlers (λ hs, (hs ++ [(e, c_str signal, cb, data)])%list)
                     (gst w) ∧
          trace w' = (trace w ++ [Ev_signal_connect e (c_str signal) cb data])%list).
Proof.
  intros Hr. simpl. unfold setElementSignal, GST_IS_ELEMENT, g_signal_connect. unfold_M.
  fold (registry w). destruct (registry w !! n) as [[e c]|] eqn:Hreg; simpl.
  - rewrite (reachable_registered_live O w n e c Hr Hreg). simpl.
    split_and!; [split; eauto | done |]. by intros ? ? [= <- <-].
  - split_and!; [split; [done | by intros [? ?]] | done | done].
Qed.

(** X12 on [demo_built]: a handler on the converter with the sink as data. *)
Lemma setElementSignal_reachable_witness :
  let b := (setElementSignal "videoconvert" "pad-added" CB_onPadAdded 5 demo_built).1 in
  let w' := (setElementSignal "videoconvert" "pad-added" CB_onPadAdded 5 demo_built).2 in
  (b = true ↔ is_Some (registry demo_built !! "videoconvert")) ∧
  (b = false → w' = demo_built) ∧
  (∀ e c, registry demo_built !! "videoconvert" = Some (e, c) →
          self w' = self demo_built ∧
          gst w' = with_handlers
                     (λ hs, (hs ++ [(e, "pad-added", CB_onPadAdded, 5)])%list)
                     (gst demo_built) ∧
          trace w' = (trace demo_built ++
                      [Ev_signal_connect e "pad-added" CB_onPadAdded 5])%list).
Proof.
  apply (setElementSignal_reachable demo_engine demo_built "videoconvert" "pad-added"
           CB_onPadAdded 5).
  exact demo_built_reachable.
Defined.

(** X13: state changes keep the graph.  [setElementState] and
    [setPipelineState] leave the registry, the parent of every element, the
    links, the caps, the properties and the handlers as they were, whatever
    the engine answers.  [setElementState] on an unregistered name returns
    [false] and leaves the world untouched; [setPipelineState] on an object
    whose pipeline is not a live element (its creation failed) returns
    [false] and changes nothing of the engine. *)
Theorem state_changes_keep_graph (O : Oracle) (w : World) (st : GstState) :
  (∀ n, let w' := (setElementState O n st w).2 in
        frame w w' ∧ same_settings w w' ∧ gst_caps (gst w') = gst_caps (gst w) ∧
        gst_links (gst w') = gst_links (gst w) ∧
        (registry w !! n = None → setElementState O n st w = (false, w))) ∧
  (let w' := (setPipelineState O st w).2 in
   frame w w' ∧ same_settings w w' ∧ gst_caps (gst w') = gst_caps (gst w) ∧
   gst_links (gst w') = gst_links (gst w) ∧
   (is_element (gst w) (m_pipeline (self w)) = false →
    (setPipelineState O st w).1 = false ∧ gst w' = gst w)).
Proof.
  assert (∀ e, let w' := (gst_element_set_state O e st w).2 in
               same_settings w w' ∧ gst_caps (gst w') = gst_caps (gst w) ∧
               gst_links (gst w') = gst_links (gst w) ∧
               (is_element (gst w) e = false →
                (gst_element_set_state O e st w).1 = GST_STATE_CHANGE_FAILURE ∧
                gst w' = gst w)) as Hset.
  { intros e. simpl. unfold gst_element_set_state, same_settings. unfold_M.
    destruct (is_element (gst w) e); simpl; [|done].
    destruct (decide (o_set_state O (gst w) e st = GST_STATE_CHANGE_FAILURE)); done. }
  split.
  - intros n. simpl. split; [apply frame_setElementState|].
    unfold setElementState. unfold_M. fold (registry w).
    destruct (registry w !! n) as [[e c]|] eqn:Hreg; simpl; [|done].
    destruct (Hset e) as (? & ? & ? & _).
    destruct (gst_element_set_state O e st w). done.
  - simpl. split; [apply frame_setPipelineState|].
    unfold setPipelineState. unfold_M.
    destruct (Hset (m_pipeline (self w))) as (? & ? & ? & Hdead).
    destruct (gst_element_set_state O (m_pipeline (self w)) st w) as [r w1]. simpl in *.
    split_and!; try done. intros Hd. destruct (Hdead Hd) as [-> ->]. done.
Qed.

(** ** A pipeline that could not be created *)

Lemma step_without_pipeline (O : Oracle) (o : op) (w : World) :
  m_pipeline (self w) = NULL →
  m_pipeline (self (step O o w).2) = NULL ∧ registry (step O o w).2 = registry w.
Proof.
  intros Hnull.
  destruct (created_name o) as [n|] eqn:Hcn.
  - rewrite step_world.
    destruct o as [e m | e m d | | | | | | | |]; simpl in Hcn; try done.
    + assert (createElement O e m (m_pipeline (self w)) w = (NULL, w)) as Hc
        by (by rewrite Hnull).
      rewrite (addElement_spec _ _ _ _ _ _ Hc). simpl. done.
    + assert (createElement O e m (m_pipeline (self w)) w = (NULL, w)) as Hc
        by (by rewrite Hnull).
      destruct (gst_caps_from_string O (c_str d) w) as [c w2] eqn:Hp.
      rewrite (addElement_caps_spec _ _ _ _ _ _ _ _ _ Hc Hp). simpl.
      apply gst_caps_from_string_spec in Hp as (Hs & _). unfold registry. by rewrite Hs.
  - assert (is_create o = false) as Hnc by (by destruct o).
    destruct (keeps_stages_step O o w Hnc) as (Hs & _). unfold registry. by rewrite Hs.
Qed.

(** X14: when the engine has no ["pipeline"] factory the constructed object
    has a [NULL] pipeline, and from then on, after any sequence of
    operations, the registry is empty and every method answers with its
    failure value: no element can be added, configured, linked or started,
    and [attachToBin] returns [NULL]. *)
Theorem no_pipeline_no_stages (O : Oracle) (pipeline_name : string)
    (init_gstream create_main_loop : bool) (g : Gst) (os : list op) :
  o_factory O "pipeline" = false →
  let w := (run O os (new_GStreamPipeline O pipeline_name init_gstream
                        create_main_loop g)).2 in
  m_pipeline (self w) = NULL ∧ registry w = ∅ ∧
  (∀ e n, (addElement O e n w).1 = false) ∧
  (∀ e n d, (addElement_caps O e n d w).1 = false) ∧
  (∀ n k v, (setElementProperty n k v w).1 = false) ∧
  (∀ n s cb d, (setElementSignal n s cb d w).1 = false) ∧
  (∀ n st, (setElementState O n st w).1 = false) ∧
  (∀ st, (setPipelineState O st w).1 = false) ∧
  (∀ n, (getElementByName n w).1 = NULL) ∧
  (∀ names, (2 ≤ length names)%nat → (linkElementsByName O names w).1 = false) ∧
  (attachToBin O w).1 = NULL.
Proof.
  intros Hfac. simpl.
  set (w0 := new_GStreamPipeline O pipeline_name init_gstream create_main_loop g).
  assert (m_pipeline (self w0) = NULL ∧ registry w0 = ∅) as H0.
  { split; [|apply new_GStreamPipeline_registry].
    subst w0. unfold new_GStreamPipeline, GStreamPipeline_ctor, gst_pipeline_new,
      gst_init, g_main_loop_new, gst_element_factory_make.
    unfold_M. rewrite Hfac. by destruct init_gstream, create_main_loop. }
  assert (m_pipeline (self (run O os w0).2) = NULL ∧ registry (run O os w0).2 = ∅)
    as [Hnull Hempty].
  { clearbody w0. revert w0 H0. induction os as [|o os IH]; intros w0 [Hn He]; [done|].
    rewrite run_cons. apply IH.
    destruct (step_without_pipeline O o w0 Hn) as [? Hreg]. by rewrite Hreg. }
  set (w := (run O os w0).2) in *. clearbody w. clear w0 H0.
  assert (∀ n, m_pipeline_map (self w) !! n = None) as Hmiss.
  { intros n. fold (registry w). by rewrite Hempty, lookup_empty. }
  assert (is_element (gst w) NULL = false) as Hdead by done.
  split_and!; try done.
  - intros e n.
    assert (createElement O e n (m_pipeline (self w)) w = (NULL, w)) as Hc
      by (by rewrite Hnull).
    by rewrite (addElement_spec _ _ _ _ _ _ Hc).
  - intros. apply addElement_caps_false.
  - intros n k v. unfold setElementProperty. unfold_M. by rewrite Hmiss.
  - intros n s cb d. unfold setElementSignal. unfold_M. by rewrite Hmiss.
  - intros n st. unfold setElementState. unfold_M. by rewrite Hmiss.
  - intros st. unfold setPipelineState, gst_element_set_state. unfold_M.
    by rewrite Hnull.
  - intros n. unfold getElementByName. unfold_M. by rewrite Hmiss.
  - intros names Hlen. destruct names as [|x [|y rest]]; simpl in Hlen; [lia | lia |].
    rewrite linkElementsByName_step. unfold_M. by rewrite Hmiss.
  - unfold attachToBin, gst_bin_new.
    unfold mbind at 1, M_bind at 1.
    destruct (gst_element_factory_make O "bin" None w) as [bin w1] eqn:Hmake.
    apply gst_element_factory_make_spec in Hmake as (Hs1 & _).
    unfold mbind at 1, M_bind at 1, gets at 1. rewrite Hs1, Hnull.
    unfold gst_bin_add, gst_object_unref. unfold_M. simpl.
    replace (is_element (gst w1) NULL) with false by done.
    by rewrite andb_false_r.
Qed.

(** X14 on [demo_bare], after the creations and the link of the video tail. *)
Lemma no_pipeline_no_stages_witness :
  let os := [Op_addElement_caps "videoconvert" "videoconvert"
               "video/x-raw, format=(string)I420";
             Op_addElement "autovideosink" "videosink";
             Op_linkElementsByName ["videoconvert"; "videosink"];
             Op_setPipelineState GST_STATE_PLAYING] in
  let w := (run demo_bare os
              (new_GStreamPipeline demo_bare "RTSP_SERVER" true true gst_empty)).2 in
  o_factory demo_bare "pipeline" = false ∧
  m_pipeline (self w) = NULL ∧ registry w = ∅ ∧
  (∀ e n, (addElement demo_bare e n w).1 = false).
Proof.
  intros os w. split; [reflexivity|].
  destruct (no_pipeline_no_stages demo_bare "RTSP_SERVER" true true gst_empty os
              eq_refl) as (Hpipe & Hreg & Hadd & _).
  split_and!; [exact Hpipe | exact Hreg | exact Hadd].
Defined.

(** ** [attachToBin] *)

(** X15: [attachToBin] never touches the class members, the caps or the
    links.  When it returns [NULL] every element is as before (a bin that
    could not take the pipeline was released again); this is the outcome
    whenever the pipeline is not a live element.  When it returns an address,
    the address was free before and now holds a new parentless bin, the
    pipeline's parent is that bin, and every other element is as before. *)
Theorem attachToBin_outcome (O : Oracle) (w : World) :
  let r := (attachToBin O w).1 in
  let w' := (attachToBin O w).2 in
  let pipe := m_pipeline (self w) in
  self w' = self w ∧ gst_caps (gst w') = gst_caps (gst w) ∧
  gst_links (gst w') = gst_links (gst w) ∧
  (is_element (gst w) pipe = false → r = NULL) ∧
  (r = NULL → ∀ p, p ≠ NULL → gst_elements (gst w') !! p = gst_elements (gst w) !! p) ∧
  (r ≠ NULL →
     gst_elements (gst w) !! r = None ∧
     gst_elements (gst w') !! r = Some (mkElement "bin" None NULL GST_STATE_NULL) ∧
     gst_elements (gst w') !! pipe = set_parent r <$> gst_elements (gst w) !! pipe ∧
     is_Some (gst_elements (gst w) !! pipe) ∧
     (∀ p, p ≠ r → p ≠ pipe → gst_elements (gst w') !! p = gst_elements (gst w) !! p)).
Proof.
  simpl. destruct (attachToBin O w) as [r w'] eqn:Hrun. simpl.
  unfold attachToBin, gst_bin_new in Hrun.
  unfold mbind at 1, M_bind at 1 in Hrun.
  destruct (gst_element_factory_make O "bin" None w) as [bin w1] eqn:Hmake.
  apply gst_element_factory_make_spec in Hmake as (Hs1 & _ & Hmake).
  unfold mbind at 1, M_bind at 1, gets at 1 in Hrun.
  unfold mbind at 1, M_bind at 1 in Hrun.
  destruct (gst_bin_add O bin (m_pipeline (self w1)) w1) as [added w2] eqn:Hadd.
  apply gst_bin_add_spec in Hadd as (Hs2 & _ & Hadd). rewrite Hs1 in *.
  destruct (fresh_addr_spec (gst w)) as (Hn & Hf & _).
  destruct Hadd as [(-> & Hg2) | (-> & Hne & Hbin & Hpipe & Hg2)]; simpl in Hrun.
  - unfold gst_object_unref in Hrun. unfold_M. simpl in Hrun.
    injection Hrun as <- <-. simpl. rewrite Hg2.
    destruct Hmake as [(-> & _ & ->) | (-> & _ & ->)]; simpl.
    + split_and!; try done. intros _ p Hp. by rewrite lookup_delete_ne.
    + split_and!; try done. intros _ p Hp. by rewrite delete_insert_id.
  - injection Hrun as <- <-.
    destruct Hmake as [(-> & _ & Hg1) | (-> & _ & Hg1)].
    { by apply is_element_true in Hbin as [? _]. }
    rewrite Hg2, Hg1. simpl.
    assert (is_Some (gst_elements (gst w) !! m_pipeline (self w))) as Hlive.
    { rewrite Hg1 in Hpipe. apply is_element_true in Hpipe as [_ Hsome]. simpl in Hsome.
      by rewrite lookup_insert_ne in Hsome. }
    split_and!; try done.
    + intros Hdead. apply is_element_true in Hpipe as [Hpn _].
      assert (is_element (gst w) (m_pipeline (self w)) = true); [|congruence].
      by apply is_element_true.
    + intros _. split_and!; try done.
      * rewrite lookup_alter_ne by done. apply lookup_insert_eq.
      * rewrite lookup_alter_eq. by rewrite lookup_insert_ne.
      * intros p Hp1 Hp2. rewrite lookup_alter_ne by done. by rewrite lookup_insert_ne.
Qed.

(** ** The callback, fired any number of times *)

(** X16: however many pads of a source are announced for one target, the
    callbacks together make at most one link; once the target's ["sink"] pad
    is linked they change nothing at all. *)
Theorem onPadAdded_repeated (O : Oracle) (element data : ptr)
    (pads : list (option GstPad)) (w : World) :
  let w' := (run O (pads_added element data pads) w).2 in
  (links_made (trace w') ≤ S (links_made (trace w)))%nat ∧
  (length (gst_links (gst w')) ≤ S (length (gst_links (gst w))))%nat ∧
  (sink_linked w data = true → w' = w).
Proof.
  simpl.
  assert (∀ ps w0, sink_linked w0 data = true →
                   (run O (pads_added element data ps) w0).2 = w0) as Hnoop.
  { clear pads w. intros pads.
    induction pads as [|pad pads IH]; intros w0 Hl; [done|].
    unfold pads_added. rewrite fmap_cons, run_cons. fold (pads_added element data pads).
    rewrite step_world. pose proof (onPadAdded_spec O element pad data w0) as H.
    rewrite Hl in H. rewrite H. simpl. by apply IH. }
  split_and!; [| | apply Hnoop]; revert w;
    (induction pads as [|pad pads IH]; intros w; [simpl; lia|]);
    unfold pads_added; rewrite fmap_cons, run_cons; fold (pads_added element data pads);
    rewrite step_world;
    pose proof (onPadAdded_spec O element pad data w) as H;
    (destruct (sink_linked w data) eqn:Hl;
     [ rewrite H; simpl; rewrite Hnoop by done; lia |]);
    destruct H as (ok & -> & Hok); simpl;
    destruct (engine_link O element (snd <$> pad) data (Some "sink") NULL w)
      as [ok' w1] eqn:He; simpl in *; subst ok';
    apply engine_link_spec in He as (Hs1 & Hel1 & Ht1 & Hres1);
    destruct ok.
  - destruct Hres1 as (_ & Hd & (l & Hlinks & _ & Hsink & _ & _ & Hpad) & _).
    rewrite Hnoop.
    + rewrite Ht1, links_made_snoc. lia.
    + unfold sink_linked. apply andb_true_iff. split.
      * apply is_element_true in Hd as [? ?]. apply is_element_true. by rewrite Hel1.
      * rewrite <- Hsink, <- (Hpad "sink" eq_refl). by eapply pad_linked_snoc.
  - specialize (IH w1). rewrite Ht1, links_made_snoc in IH. simpl in IH. lia.
  - destruct Hres1 as (_ & Hd & (l & Hlinks & _ & Hsink & _ & _ & Hpad) & _).
    rewrite Hnoop.
    + rewrite Hlinks, length_app. simpl. lia.
    + unfold sink_linked. apply andb_true_iff. split.
      * apply is_element_true in Hd as [? ?]. apply is_element_true. by rewrite Hel1.
      * rewrite <- Hsink, <- (Hpad "sink" eq_refl). by eapply pad_linked_snoc.
  - specialize (IH w1). rewrite Hres1 in IH. lia.
Qed.

(** ** A stage whose name is taken over *)

Lemma run_snoc (O : Oracle) (os : list op) (o : op) :
  ∀ w, (run O (os ++ [o]) w).2 = (step O o (run O os w).2).2.
Proof.
  induction os as [|o' os IH]; intros w.
  - simpl. unfold mbind, M_bind. by destruct (step O o w).
  - rewrite <- app_comm_cons, !run_cons. apply IH.
Qed.

Lemma reachable_step (O : Oracle) (o : op) w :
  reachable O w → reachable O (step O o w).2.
Proof.
  intros (name & init & loop & g & os & ->).
  exists name, init, loop, g, (os ++ [o])%list. by rewrite run_snoc.
Qed.

Lemma reachable_run (O : Oracle) (os : list op) :
  ∀ w, reachable O w → reachable O (run O os w).2.
Proof.
  induction os as [|o os IH]; intros w Hr; [done|].
  rewrite run_cons. by apply IH, reachable_step.
Qed.






(** ** The caller: [runSimplePipeline] *)

Global Instance same_settings_preorder : PreOrder same_settings.
Proof.
  split.
  - by intros w.
  - intros w1 w2 w3 [H1 H2] [H3 H4]. split; congruence.
Qed.

Global Instance same_attempts_preorder : PreOrder same_attempts.
Proof.
  split.
  - by intros w.
  - intros w1 w2 w3. unfold same_attempts. congruence.
Qed.

Create HintDb settings_db.

Create HintDb attempts_db.

(** Proves that an engine call keeps a relation whose two sides become
    equal once the call is unfolded and its choices are split. *)
Ltac respects_by_cases :=
  intros w; unfold same_settings, same_attempts; unfold_M; simpl;
  repeat match goal with
         | |- context [if ?b then _ else _] => destruct b; simpl
         | |- context [match ?x with _ => _ end] => destruct x; simpl
         end;
  rewrite ?link_attempts_app, ?app_nil_r; done.

Lemma settings_modify_self f : respects same_settings (modify_self f).
Proof. respects_by_cases. Qed.

Lemma settings_tell e : respects same_settings (tell e).
Proof. respects_by_cases. Qed.

Lemma settings_GST_IS_ELEMENT p : respects same_settings (GST_IS_ELEMENT p).
Proof. respects_by_cases. Qed.

Lemma settings_GST_IS_CAPS p : respects same_settings (GST_IS_CAPS p).
Proof. respects_by_cases. Qed.

Lemma settings_factory_make O f n :
  respects same_settings (gst_element_factory_make O f n).
Proof. unfold gst_element_factory_make. respects_by_cases. Qed.

Lemma settings_bin_add O b c : respects same_settings (gst_bin_add O b c).
Proof. unfold gst_bin_add. respects_by_cases. Qed.

Lemma settings_object_unref p : respects same_settings (gst_object_unref p).
Proof. unfold gst_object_unref. respects_by_cases. Qed.

Lemma settings_caps_from_string O d : respects same_settings (gst_caps_from_string O d).
Proof. unfold gst_caps_from_string. respects_by_cases. Qed.

Lemma settings_caps_unref c : respects same_settings (gst_caps_unref c).
Proof. unfold gst_caps_unref. respects_by_cases. Qed.

Lemma settings_engine_link O a ap b bp f :
  respects same_settings (engine_link O a ap b bp f).
Proof. unfold engine_link. respects_by_cases. Qed.

Lemma settings_set_state O e st : respects same_settings (gst_element_set_state O e st).
Proof. unfold gst_element_set_state. respects_by_cases. Qed.

Lemma settings_main_loop_new : respects same_settings g_main_loop_new.
Proof. unfold g_main_loop_new. respects_by_cases. Qed.

#[export] Hint Resolve settings_modify_self settings_tell settings_GST_IS_ELEMENT
  settings_GST_IS_CAPS settings_factory_make settings_bin_add settings_object_unref
  settings_caps_from_string settings_caps_unref settings_engine_link settings_set_state
  settings_main_loop_new : settings_db.

Lemma attempts_modify_self f : respects same_attempts (modify_self f).
Proof. respects_by_cases. Qed.

Lemma attempts_GST_IS_ELEMENT p : respects same_attempts (GST_IS_ELEMENT p).
Proof. respects_by_cases. Qed.

Lemma attempts_GST_IS_CAPS p : respects same_attempts (GST_IS_CAPS p).
Proof. respects_by_cases. Qed.

Lemma attempts_factory_make O f n :
  respects same_attempts (gst_element_factory_make O f n).
Proof. unfold gst_element_factory_make. respects_by_cases. Qed.

Lemma attempts_bin_add O b c : respects same_attempts (gst_bin_add O b c).
Proof. unfold gst_bin_add. respects_by_cases. Qed.

Lemma attempts_object_unref p : respects same_attempts (gst_object_unref p).
Proof. unfold gst_object_unref. respects_by_cases. Qed.

Lemma attempts_caps_from_string O d : respects same_attempts (gst_caps_from_string O d).
Proof. unfold gst_caps_from_string. respects_by_cases. Qed.

Lemma attempts_set_state O e st : respects same_attempts (gst_element_set_state O e st).
Proof. unfold gst_element_set_state. respects_by_cases. Qed.

Lemma attempts_main_loop_new : respects same_attempts g_main_loop_new.
Proof. unfold g_main_loop_new. respects_by_cases. Qed.

Lemma attempts_object_set p k v : respects same_attempts (g_object_set p k v).
Proof. unfold g_object_set. respects_by_cases. Qed.

Lemma attempts_signal_connect p s cb d : respects same_attempts (g_signal_connect p s cb d).
Proof. unfold g_signal_connect. respects_by_cases. Qed.

#[export] Hint Resolve attempts_modify_self attempts_GST_IS_ELEMENT attempts_GST_IS_CAPS
  attempts_factory_make attempts_bin_add attempts_object_unref
  attempts_caps_from_string attempts_set_state attempts_main_loop_new
  attempts_object_set attempts_signal_connect : attempts_db.

(** Creation, construction and state changes set no property, connect no
    handler and attempt no link. *)
Lemma settings_createElement O e n p : respects same_settings (createElement O e n p).
Proof. unfold createElement. respects_with settings_db. Qed.

Lemma attempts_createElement O e n p : respects same_attempts (createElement O e n p).
Proof. unfold createElement. respects_with attempts_db. Qed.

#[export] Hint Resolve settings_createElement : settings_db.

#[export] Hint Resolve attempts_createElement : attempts_db.

Lemma settings_addElement O e n : respects same_settings (addElement O e n).
Proof. unfold addElement, map_assign. respects_with settings_db. Qed.

Lemma attempts_addElement O e n : respects same_attempts (addElement O e n).
Proof. unfold addElement, map_assign. respects_with attempts_db. Qed.

Lemma settings_addElement_caps O e n d : respects same_settings (addElement_caps O e n d).
Proof. unfold addElement_caps, map_assign. respects_with settings_db. Qed.

Lemma attempts_addElement_caps O e n d : respects same_attempts (addElement_caps O e n d).
Proof. unfold addElement_caps, map_assign. respects_with attempts_db. Qed.

Lemma settings_gst_init : respects same_settings gst_init.
Proof. unfold gst_init. respects_by_cases. Qed.

Lemma attempts_gst_init : respects same_attempts gst_init.
Proof. unfold gst_init. respects_by_cases. Qed.

#[export] Hint Resolve settings_gst_init : settings_db.

#[export] Hint Resolve attempts_gst_init : attempts_db.

Lemma settings_ctor O n i l : respects same_settings (GStreamPipeline_ctor O n i l).
Proof. unfold GStreamPipeline_ctor, gst_pipeline_new. respects_with settings_db. Qed.

Lemma attempts_ctor O n i l : respects same_attempts (GStreamPipeline_ctor O n i l).
Proof. unfold GStreamPipeline_ctor, gst_pipeline_new. respects_with attempts_db. Qed.

Lemma settings_setPipelineState O st : respects same_settings (setPipelineState O st).
Proof. unfold setPipelineState. respects_with settings_db. Qed.

Lemma attempts_setPipelineState O st : respects same_attempts (setPipelineState O st).
Proof. unfold setPipelineState. respects_with attempts_db. Qed.

Lemma settings_linkElementsByName O names :
  respects same_settings (linkElementsByName O names).
Proof.
  induction names as [|name rest IH]; [apply respects_ret; apply _ |].
  destruct rest as [|child_name rest']; [apply respects_ret; apply _ |].
  rewrite linkElementsByName_step.
  unfold linkElement, gst_element_link_filtered, gst_element_link.
  respects_with settings_db.
Qed.

Lemma attempts_setElementProperty n k v : respects same_attempts (setElementProperty n k v).
Proof. unfold setElementProperty. respects_with attempts_db. Qed.

Lemma attempts_setElementSignal n s cb d :
  respects same_attempts (setElementSignal n s cb d).
Proof. unfold setElementSignal. respects_with attempts_db. Qed.

Lemma bind_then {A B} (m : M A) (k : M B) (w : World) :
  (m ≫= λ _, k) w = k (m w).2.
Proof. unfold mbind, M_bind. by destruct (m w). Qed.

Lemma bind_getElementByName {B} (n : string) (f : N → M B) (w : World) :
  (getElementByName n ≫= f) w = f (getElementByName n w).1 w.
Proof. reflexivity. Qed.

Lemma run_nil (O : Oracle) (w : World) : (run O [] w).2 = w.
Proof. reflexivity. Qed.

Lemma ret_world {A} (x : A) (w : World) : ((mret x : M A) w).2 = w.
Proof. reflexivity. Qed.

Lemma simple_pipeline_steps (O : Oracle) (location : string) (g : Gst) :
  let w0 := new_GStreamPipeline O "RTSP_SERVER" true true g in
  let wc := (run O simple_creates w0).2 in
  let w1 := (setElementProperty "rtspsrc" "location" (GString (c_str location)) wc).2 in
  let w2 := (setElementProperty "rtspsrc" "protocols"
               (GInt GST_RTSP_LOWER_TRANS_UDP) w1).2 in
  let w3 := (setElementProperty "rtspsrc" "latency" (GInt 0) w2).2 in
  let wl := (linkElementsByName O simple_chain w3).2 in
  let depay := (getElementByName "videodepay" wl).1 in
  let ws := (setElementSignal "rtspsrc" "pad-added" CB_onPadAdded depay wl).2 in
  simple_pipeline O location g = (setPipelineState O GST_STATE_PLAYING ws).2.
Proof.
  cbv zeta.
  unfold simple_pipeline, runSimplePipeline, simple_creates, simple_chain,
    new_GStreamPipeline.
  rewrite !run_cons, run_nil, !step_world.
  rewrite !bind_then, bind_getElementByName, !bind_then.
  apply ret_world.
Qed.

Lemma reachable_op (O : Oracle) (o : op) (w w' : World) :
  reachable O w → w' = (step O o w).2 → reachable O w'.
Proof. intros Hr ->. by apply reachable_step. Qed.

Lemma run_creates_quiet (O : Oracle) (os : list op) :
  Forall (λ o, is_create o = true) os →
  ∀ w, same_settings w (run O os w).2 ∧ same_attempts w (run O os w).2.
Proof.
  induction 1 as [|o os Ho _ IH]; intros w; [done|].
  rewrite run_cons. destruct (IH (step O o w).2) as [IH1 IH2].
  assert (same_settings w (step O o w).2 ∧ same_attempts w (step O o w).2) as [H1 H2].
  { rewrite step_world. destruct o; try done.
    - split; [apply settings_addElement | apply attempts_addElement].
    - split; [apply settings_addElement_caps | apply attempts_addElement_caps]. }
  split; etrans; eauto.
Qed.

(** An entry with a caps is an old entry or comes from a creation with
    caps under its name. *)
Lemma run_registry_caps (O : Oracle) (os : list op) :
  ∀ w n e c, registry (run O os w).2 !! n = Some (e, c) → c ≠ NULL →
             registry w !! n = Some (e, c) ∨ n ∈ omap caps_created_name os.
Proof.
  induction os as [|o os IH]; intros w n e c Hreg Hc; [by left|].
  rewrite run_cons in Hreg. destruct (IH _ _ _ _ Hreg Hc) as [Hstep | Hin].
  2:{ right. simpl. destruct (caps_created_name o); [by right | done]. }
  destruct (created_name o) as [m|] eqn:Hcn.
  - destruct o as [f m' | f m' d | | | | | | | |]; simpl in Hcn; try done;
      injection Hcn as ->.
    + left. rewrite step_world in Hstep.
      destruct (createElement O f m (m_pipeline (self w)) w) as [r w1] eqn:Hcr.
      rewrite (addElement_spec _ _ _ _ _ _ Hcr) in Hstep.
      apply createElement_spec in Hcr as (Hs & _).
      destruct (bool_decide (r = NULL)); simpl in Hstep.
      * unfold registry in *. by rewrite <- Hs.
      * unfold stored, registry in *. simpl in Hstep. rewrite Hs in Hstep.
        destruct (decide (m = n)) as [->|Hne].
        -- rewrite lookup_insert_eq in Hstep. congruence.
        -- by rewrite lookup_insert_ne in Hstep.
    + destruct (decide (m = n)) as [->|Hne]; [right; simpl; by left|]. left.
      destruct (step_create_registry O (Op_addElement_caps f m d) w m eq_refl)
        as (_ & _ & [Hsame | (h & c' & Hins & _)]).
      * by rewrite <- Hsame.
      * rewrite Hins in Hstep. by rewrite lookup_insert_ne in Hstep.
  - left. assert (is_create o = false) as Hnc by (by destruct o).
    destruct (keeps_stages_step O o w Hnc) as (Hs & _).
    unfold registry in *. by rewrite <- Hs.
Qed.

Lemma setElementProperty_settings (O : Oracle) w n k v :
  reachable O w →
  let w' := (setElementProperty n k v w).2 in
  gst_props (gst w') =
    (gst_props (gst w) ++
     match registry w !! n with
     | Some entry => [(entry.1, c_str k, v)]
     | None => []
     end)%list ∧
  gst_handlers (gst w') = gst_handlers (gst w).
Proof.
  intros Hr. simpl. unfold setElementProperty, GST_IS_ELEMENT, g_object_set. unfold_M.
  fold (registry w). destruct (registry w !! n) as [[e c]|] eqn:Hreg; simpl.
  - rewrite (reachable_registered_live O w n e c Hr Hreg). done.
  - by rewrite app_nil_r.
Qed.

Lemma setElementSignal_settings (O : Oracle) w n s cb d :
  reachable O w →
  let w' := (setElementSignal n s cb d w).2 in
  gst_handlers (gst w') =
    (gst_handlers (gst w) ++
     match registry w !! n with
     | Some entry => [(entry.1, c_str s, cb, d)]
     | None => []
     end)%list ∧
  gst_props (gst w') = gst_props (gst w).
Proof.
  intros Hr. simpl. unfold setElementSignal, GST_IS_ELEMENT, g_signal_connect. unfold_M.
  fold (registry w). destruct (registry w !! n) as [[e c]|] eqn:Hreg; simpl.
  - rewrite (reachable_registered_live O w n e c Hr Hreg). done.
  - by rewrite app_nil_r.
Qed.

Lemma consecutive_elem (names : list string) (p : string * string) :
  p ∈ consecutive names → p.1 ∈ names ∧ p.2 ∈ names.
Proof.
  destruct p as [x y]. unfold consecutive. intros Hin. split.
  - by eapply elem_of_zip_l.
  - apply elem_of_zip_r in Hin. destruct names; [done|]. simpl in Hin. by right.
Qed.

(** X18: what [runSimplePipeline] has set up when it reaches the main
    loop, whatever the engine decided on the way.  The world is a reachable
    one; only the eight names of the function are registered, and only
    ["videoconvert"] can hold a caps; the property settings made are the
    three on the element of ["rtspsrc"], in source order, and none when
    that creation failed; the one handler connected is [onPadAdded] on
    that element, with the element of ["videodepay"] (or [NULL]) as its
    data; and no link attempt of the run has the element of ["rtspsrc"]
    at either end: the source is linked only later, by the handler. *)
Theorem simple_pipeline_setup (O : Oracle) (location : string) (g : Gst) :
  let w := simple_pipeline O location g in
  reachable O w ∧
  (∀ n, is_Some (registry w !! n) → n ∈ simple_names) ∧
  (∀ n e c, registry w !! n = Some (e, c) → c ≠ NULL → n = "videoconvert") ∧
  gst_props (gst w) =
    (gst_props g ++
     match registry w !! "rtspsrc" with
     | Some entry => simple_props location entry.1
     | None => []
     end)%list ∧
  gst_handlers (gst w) =
    (gst_handlers g ++
     match registry w !! "rtspsrc" with
     | Some entry =>
         [(entry.1, "pad-added", CB_onPadAdded, (getElementByName "videodepay" w).1)]
     | None => []
     end)%list ∧
  (∀ entry a b ok,
      registry w !! "rtspsrc" = Some entry →
      (a, b, ok) ∈ link_attempts (trace w) → a ≠ entry.1 ∧ b ≠ entry.1).
Proof.
  cbv zeta. pose proof (simple_pipeline_steps O location g) as Hsteps.
  cbv zeta in Hsteps. rewrite Hsteps. clear Hsteps.
  set (wi := mkWorld (mkPipeline ∅ NULL NULL) g []).
  set (w0 := new_GStreamPipeline O "RTSP_SERVER" true true g).
  assert (reachable O w0) as Hr0.
  { exists "RTSP_SERVER", true, true, g, []. by rewrite run_nil. }
  assert (registry w0 = ∅) as Hreg0 by apply new_GStreamPipeline_registry.
  assert (same_settings wi w0 ∧ same_attempts wi w0) as [[Hp0 Hh0] Ha0].
  { split; [apply settings_ctor | apply attempts_ctor]. }
  change (gst_props (gst wi)) with (gst_props g) in Hp0.
  change (gst_handlers (gst wi)) with (gst_handlers g) in Hh0.
  unfold same_attempts in Ha0.
  change (link_attempts (trace wi)) with (@nil (N * N * bool)) in Ha0.
  clearbody w0. clear wi.
  set (wc := (run O simple_creates w0).2).
  assert (reachable O wc) as Hrc by (by apply reachable_run).
  assert (Forall (λ o, is_create o = true) simple_creates) as Hcreates.
  { unfold simple_creates. repeat constructor. }
  destruct (run_creates_quiet O simple_creates Hcreates w0) as [[Hpc Hhc] Hac].
  fold wc in Hpc, Hhc, Hac. unfold same_attempts in Hac.
  assert (∀ n, is_Some (registry wc !! n) → n ∈ simple_names) as Hnames.
  { intros n Hsome. destruct (decide (n ∈ simple_names)) as [|Hnot]; [done|].
    destruct (run_registry_frame O simple_creates w0 n) as [Hother _].
    fold wc in Hother. rewrite Hother, Hreg0, lookup_empty in Hsome; [by destruct Hsome|].
    exact Hnot. }
  assert (∀ n e c, registry wc !! n = Some (e, c) → c ≠ NULL → n = "videoconvert")
    as Hcaps.
  { intros n e c Hreg Hc.
    destruct (run_registry_caps O simple_creates w0 n e c Hreg Hc) as [Hold | Hin].
    - by rewrite Hreg0, lookup_empty in Hold.
    - by apply list_elem_of_singleton in Hin. }
  clearbody wc.
  (* the three properties *)
  set (w1 := (setElementProperty "rtspsrc" "location" (GString (c_str location)) wc).2).
  destruct (setElementProperty_settings O wc "rtspsrc" "location" (GString (c_str location)) Hrc)
    as [Hp1 Hh1]. fold w1 in Hp1, Hh1.
  pose proof (attempts_setElementProperty "rtspsrc" "location" (GString (c_str location)) wc) as Ha1.
  destruct (frame_setElementProperty "rtspsrc" "location" (GString (c_str location)) wc)
    as (Hs1 & _). fold w1 in Ha1, Hs1. unfold same_attempts in Ha1.
  assert (reachable O w1) as Hr1.
  { apply (reachable_op O (Op_setElementProperty "rtspsrc" "location" (GString (c_str location))) wc);
      [done | by rewrite step_world]. }
  clearbody w1.
  set (w2 := (setElementProperty "rtspsrc" "protocols" (GInt GST_RTSP_LOWER_TRANS_UDP) w1).2).
  destruct (setElementProperty_settings O w1 "rtspsrc" "protocols"
              (GInt GST_RTSP_LOWER_TRANS_UDP) Hr1) as [Hp2 Hh2]. fold w2 in Hp2, Hh2.
  pose proof (attempts_setElementProperty "rtspsrc" "protocols"
                (GInt GST_RTSP_LOWER_TRANS_UDP) w1) as Ha2.
  destruct (frame_setElementProperty "rtspsrc" "protocols"
              (GInt GST_RTSP_LOWER_TRANS_UDP) w1) as (Hs2 & _).
  fold w2 in Ha2, Hs2. unfold same_attempts in Ha2.
  assert (reachable O w2) as Hr2.
  { apply (reachable_op O (Op_setElementProperty "rtspsrc" "protocols"
                             (GInt GST_RTSP_LOWER_TRANS_UDP)) w1);
      [done | by rewrite step_world]. }
  clearbody w2.
  set (w3 := (setElementProperty "rtspsrc" "latency" (GInt 0) w2).2).
  destruct (setElementProperty_settings O w2 "rtspsrc" "latency" (GInt 0) Hr2)
    as [Hp3 Hh3]. fold w3 in Hp3, Hh3.
  pose proof (attempts_setElementProperty "rtspsrc" "latency" (GInt 0) w2) as Ha3.
  destruct (frame_setElementProperty "rtspsrc" "latency" (GInt 0) w2) as (Hs3 & _).
  fold w3 in Ha3, Hs3. unfold same_attempts in Ha3.
  assert (reachable O w3) as Hr3.
  { apply (reachable_op O (Op_setElementProperty "rtspsrc" "latency" (GInt 0)) w2);
      [done | by rewrite step_world]. }
  clearbody w3.
  (* the chain of links *)
  destruct (linkElementsByName O simple_chain w3) as [linked wl] eqn:Hlink.
  cbn [snd].
  destruct (settings_linkElementsByName O simple_chain w3) as [Hpl Hhl].
  destruct (frame_linkElementsByName O simple_chain w3) as (Hsl & _).
  rewrite Hlink in Hpl, Hhl, Hsl. cbn [snd] in Hpl, Hhl, Hsl.
  assert (reachable O wl) as Hrl.
  { apply (reachable_op O (Op_linkElementsByName simple_chain) w3);
      [done | by rewrite step_world, Hlink]. }
  apply linkElementsByName_prefix in Hlink
    as (done & rest & ends & failed & new & Hpre).
  destruct Hpre as (Hcons & Hall & Hatt & _ & _ & _ & Hrest).
  (* the handler and the state change *)
  rewrite getElementByName_lookup. cbn [fst].
  set (depay := match registry wl !! "videodepay" with
                | Some entry => entry.1 | None => NULL end).
  set (ws := (setElementSignal "rtspsrc" "pad-added" CB_onPadAdded depay wl).2).
  destruct (setElementSignal_settings O wl "rtspsrc" "pad-added" CB_onPadAdded depay Hrl)
    as [Hhs Hps]. fold ws in Hhs, Hps.
  pose proof (attempts_setElementSignal "rtspsrc" "pad-added" CB_onPadAdded depay wl) as Has.
  destruct (frame_setElementSignal "rtspsrc" "pad-added" CB_onPadAdded depay wl)
    as (Hss & _). fold ws in Has, Hss. unfold same_attempts in Has.
  assert (reachable O ws) as Hrs.
  { apply (reachable_op O (Op_setElementSignal "rtspsrc" "pad-added" CB_onPadAdded depay) wl);
      [done | by rewrite step_world]. }
  clearbody ws.
  set (w := (setPipelineState O GST_STATE_PLAYING ws).2).
  destruct (settings_setPipelineState O GST_STATE_PLAYING ws) as [Hpw Hhw].
  pose proof (attempts_setPipelineState O GST_STATE_PLAYING ws) as Haw.
  destruct (frame_setPipelineState O GST_STATE_PLAYING ws) as (Hsw & _).
  fold w in Hpw, Hhw, Haw, Hsw. unfold same_attempts in Haw.
  assert (reachable O w) as Hrw.
  { apply (reachable_op O (Op_setPipelineState GST_STATE_PLAYING) ws);
      [done | by rewrite step_world]. }
  clearbody w.
  (* registries agree from [wc] on *)
  assert (∀ wa wb, self wb = self wa → registry wb = registry wa) as Hself.
  { intros wa wb Hs. unfold registry. by rewrite Hs. }
  pose proof (Hself _ _ Hs1) as Hg1. pose proof (Hself _ _ Hs2) as Hg2.
  pose proof (Hself _ _ Hs3) as Hg3. pose proof (Hself _ _ Hsl) as Hgl.
  pose proof (Hself _ _ Hss) as Hgs. pose proof (Hself _ _ Hsw) as Hgw.
  assert (registry w = registry wc) as Hregw by congruence.
  assert (registry wl = registry wc) as Hregl by congruence.
  assert (registry w3 = registry wc) as Hreg3 by congruence.
  split_and!.
  - done.
  - intros n. rewrite Hregw. apply Hnames.
  - intros n e c. rewrite Hregw. apply Hcaps.
  - rewrite Hpw, Hps, Hpl, Hp3, Hp2, Hp1, Hpc, Hp0, Hg2, Hg1, Hregw.
    destruct (registry wc !! "rtspsrc"); simpl; by rewrite <- ?app_assoc, ?app_nil_r.
  - rewrite Hhw, Hhs, Hhl, Hh3, Hh2, Hh1, Hhc, Hh0, Hregw, Hregl.
    rewrite getElementByName_lookup, Hregw. unfold depay. by rewrite Hregl.
  - intros entry a b ok Hsrc Hin. rewrite Hregw in Hsrc.
    rewrite Haw, Has, Hatt, Ha3, Ha2, Ha1, Hac, Ha0 in Hin. simpl in Hin.
    assert ("rtspsrc" ∉ simple_chain) as Hnotin.
    { apply (bool_decide_unpack _). by vm_compute. }
    assert (∀ p e, p ∈ consecutive simple_chain → endpoints w3 p = Some e →
                   e.1 ≠ entry.1 ∧ e.2 ≠ entry.1) as Hpair.
    { intros [x y] [ex ey] Hp Hend. apply consecutive_elem in Hp as [Hx Hy].
      unfold endpoints in Hend. rewrite Hreg3 in Hend. simpl in *.
      destruct (registry wc !! x) as [[ex' cx]|] eqn:Hrx; [|done].
      destruct (registry wc !! y) as [[ey' cy]|] eqn:Hry; [|done].
      injection Hend as <- <-. destruct entry as [es cs]. simpl.
      pose proof (reachable_registry_injective O wc Hrc) as Hinj.
      split; intros ->.
      - apply Hnotin. by rewrite (Hinj "rtspsrc" x es cs cx Hsrc Hrx).
      - apply Hnotin. by rewrite (Hinj "rtspsrc" y es cs cy Hsrc Hry). }
    apply elem_of_app in Hin as [Hin | Hin].
    + apply list_elem_of_fmap in Hin as (e & Heq & Hin). injection Heq as -> -> ->.
      apply list_elem_of_lookup in Hin as [i Hi].
      destruct (Forall2_lookup_r _ _ _ _ _ Hall Hi) as (p & Hp & Hend & _).
      apply (Hpair p e); [|done]. rewrite Hcons. apply elem_of_app. left.
      apply list_elem_of_lookup. eauto.
    + destruct rest as [|p rest]; [destruct Hrest as [_ ->]; by inversion Hin|].
      destruct Hrest as [_ Hfail].
      destruct (endpoints w3 p) as [e|] eqn:Hend; [|subst failed; by inversion Hin].
      destruct (pair_live w3 p); subst failed; [|by inversion Hin].
      apply list_elem_of_singleton in Hin. injection Hin as -> -> ->.
      apply (Hpair p e); [|done]. rewrite Hcons. apply elem_of_app. right. by left.
Qed.
